(** * Twitter/X media handler: variant normalisation and ranking

    A shallow embedding of [src/platforms/twitter.js] (the resolution
    parser, the quality classifier, the variant ranker, the two structured
    extractors from their payload on, the download summary and the request
    handler that merges the three sources), with the properties the
    specification states about them.

    Conventions of the embedding.
    - A JavaScript string is a [string], read as a sequence of code units
      below 256; a value that may be [undefined] or [null] is an [option].
    - A JavaScript number is a [jsnum]: [NaN] or an integer.  This is exact
      for the integers a double represents exactly (magnitude below 2^53);
      literals with a fraction, an exponent, a radix prefix or [Infinity]
      are outside the domain of [Number] below and read as [NaN].
    - Objects are records; a property that an object literal of the source
      leaves out is [None].
    - [Array.prototype.sort] with the area comparator is a stable
      insertion sort; a [Set] is the list of its elements in insertion
      order.
    - Awaiting an extractor is a [Call] node of a finite interaction tree;
      a network says what each extractor resolves to.  What source C
      resolves to is taken as given.
    - The host's [Date] is a parameter ([Host]); a conversion that throws
      is [None], and the handler's [catch] turns it into the 500 answer. *)

From Stdlib Require Import String Ascii List ZArith Lia Bool.
From Stdlib Require Import Sorted Permutation DecimalString.
From Stdlib Require DecimalPos.
Import ListNotations.

Local Open Scope string_scope.
Local Open Scope Z_scope.

(** ** JavaScript primitives used by the handler *)

Module JS.

(** Numbers: [NaN] or an integer value. *)
Inductive jsnum : Type :=
| NaN
| Num (z : Z).

Definition is_digit (c : ascii) : bool :=
  let n := nat_of_ascii c in (48 <=? n)%nat && (n <=? 57)%nat.

Definition digit_value (c : ascii) : Z := Z.of_nat (nat_of_ascii c) - 48.

(** White space that [Number] strips: TAB, LF, VT, FF, CR, SP, NBSP. *)
Definition is_space (c : ascii) : bool :=
  let n := nat_of_ascii c in
  ((9 <=? n)%nat && (n <=? 13)%nat) || (n =? 32)%nat || (n =? 160)%nat.

Fixpoint all_digits (s : string) : bool :=
  match s with
  | EmptyString => true
  | String c r => is_digit c && all_digits r
  end.

(** Value of a run of decimal digits, most significant first. *)
Fixpoint digits_value (acc : Z) (s : string) : Z :=
  match s with
  | EmptyString => acc
  | String c r => digits_value (10 * acc + digit_value c) r
  end.

Fixpoint drop_spaces (s : string) : string :=
  match s with
  | EmptyString => EmptyString
  | String c r => if is_space c then drop_spaces r else s
  end.

Fixpoint rev_string (acc s : string) : string :=
  match s with
  | EmptyString => acc
  | String c r => rev_string (String c acc) r
  end.

Definition trim (s : string) : string :=
  rev_string EmptyString
    (drop_spaces (rev_string EmptyString (drop_spaces s))).

Definition unsigned_decimal (s : string) : jsnum :=
  match s with
  | EmptyString => NaN
  | _ => if all_digits s then Num (digits_value 0 s) else NaN
  end.

(** [Number(s)] for a string [s]: white space is trimmed, the empty string
    is 0, an optionally signed run of decimal digits is its value, and
    anything else is [NaN]. *)
Definition Number (s : string) : jsnum :=
  match trim s with
  | EmptyString => Num 0
  | String "+" r => unsigned_decimal r
  | String "-" r =>
      match unsigned_decimal r with
      | Num z => Num (- z)
      | NaN => NaN
      end
  | t => unsigned_decimal t
  end.

(** [isNaN(x)] where [x] may be [undefined]: [Number(undefined)] is NaN. *)
Definition isNaN (x : option jsnum) : bool :=
  match x with
  | Some (Num _) => false
  | _ => true
  end.

(** [x || 0] for a number or [undefined]: NaN, 0 and [undefined] are falsy. *)
Definition or_zero (x : option jsnum) : Z :=
  match x with
  | Some (Num z) => z
  | _ => 0
  end.

(** [x === n] and [x >= n] against a literal; both are false on NaN. *)
Definition num_eqb (x : jsnum) (n : Z) : bool :=
  match x with
  | Num z => z =? n
  | NaN => false
  end.

Definition num_geb (x : jsnum) (n : Z) : bool :=
  match x with
  | Num z => n <=? z
  | NaN => false
  end.

(** [s.split('x')]: the pieces between the occurrences of the separator;
    never the empty list. *)
Fixpoint split_x (s : string) : list string :=
  match s with
  | EmptyString => [EmptyString]
  | String c r =>
      if Ascii.eqb c "x" then EmptyString :: split_x r
      else match split_x r with
           | p :: ps => String c p :: ps
           | [] => [String c EmptyString]
           end
  end.

(** Truthiness of a string or [undefined]. *)
Definition truthy (s : option string) : bool :=
  match s with
  | None => false
  | Some EmptyString => false
  | Some _ => true
  end.

(** [a || b] on strings that may be absent. *)
Definition or_else (a b : option string) : option string :=
  if truthy a then a else b.

(** Template rendering of a JSON number or [undefined] field. *)
Definition render (n : option Z) : string :=
  match n with
  | None => "undefined"
  | Some z => NilZero.string_of_int (Z.to_int z)
  end.

(** Template rendering and [+] concatenation of a string or [undefined]. *)
Definition render_string (s : option string) : string :=
  match s with
  | None => "undefined"
  | Some t => t
  end.

(** [a || d] where [d] is a string literal. *)
Definition or_default (a : option string) (d : string) : string :=
  match a with
  | Some t => if truthy a then t else d
  | None => d
  end.

(** A stable sort by a comparator, as [Array.prototype.sort(cmp)] is for a
    consistent comparator: [x] stays in front of [y] unless [cmp x y > 0]. *)
Section ArraySort.
Context {A : Type} (cmp : A -> A -> Z).

Fixpoint insert (x : A) (l : list A) : list A :=
  match l with
  | [] => [x]
  | y :: l' => if 0 <? cmp x y then y :: insert x l' else x :: l
  end.

Definition sort (l : list A) : list A := fold_right insert [] l.
End ArraySort.

(** [[...new Set(l)]]: the distinct elements in order of first insertion. *)
Fixpoint set_add (x : string) (seen : list string) : list string :=
  match seen with
  | [] => [x]
  | y :: r => if String.eqb x y then seen else y :: set_add x r
  end.

Definition new_Set (l : list string) : list string :=
  fold_left (fun seen x => set_add x seen) l [].

End JS.

(** ** The data model of the handler *)

(** [{ width, height }] as returned by [parseResolution]. *)
Module Resolution.
Record t : Type := make { width : Z; height : Z }.
End Resolution.

(** One entry of an item's [variants] array. *)
Module Variant.
Record t : Type := make {
  url : option string;
  quality : string;
  bitrate : option Z;
  content_type : option string;
  resolution : string
}.
End Variant.

(** The [type] property of a media item; the extractors produce no other. *)
Inductive kind : Type := photo | video | gif.

(** One entry of a result's [media] array. *)
Module MediaItem.
Record t : Type := make {
  type : kind;
  url : option string;
  download_url : option string;
  thumbnail_url : option string;
  duration : option Z;
  width : option Z;
  height : option Z;
  size : option string;
  variants : list Variant.t;
  best_quality : option string;
  available_qualities : option (list string);
  available_resolutions : option (list string)
}.
End MediaItem.

Module User.
Record t : Type := make {
  name : string;
  screen_name : string;
  profile_image_url : string
}.
End User.

(** [created_at]: an ISO string, or the number of seconds source B reports. *)
Inductive timestamp : Type :=
| TsText (s : string)
| TsNumber (seconds : Z).

(** What an extractor resolves to when it does not resolve to [null]. *)
Module Result.
Record t : Type := make {
  method : string;
  user : User.t;
  text : string;
  created_at : timestamp;
  media : list MediaItem.t
}.
End Result.

(** ** Resolution parser, quality classifier, variant ranker *)

Module Twitter.
Import JS.

Definition is_sentinel (s : string) : bool :=
  String.eqb s "unknown" || String.eqb s "undefinedxundefined".

(** [parseResolution(resolution)] *)
Definition parseResolution (resolution : option string) : Resolution.t :=
  match resolution with
  | None => Resolution.make 0 0
  | Some s =>
      if negb (truthy (Some s)) || is_sentinel s then Resolution.make 0 0
      else
        let parts := map Number (split_x s) in
        Resolution.make (or_zero (nth_error parts 0))
                        (or_zero (nth_error parts 1))
  end.

(** A component that destructuring left [undefined] compares as NaN. *)
Definition to_num (x : option jsnum) : jsnum :=
  match x with
  | Some n => n
  | None => NaN
  end.

(** [getQualityFromResolution(resolution)] *)
Definition getQualityFromResolution (resolution : option string) : string :=
  match resolution with
  | None => "unknown"
  | Some s =>
      if negb (truthy (Some s)) || is_sentinel s then "unknown"
      else
        let parts := map Number (split_x s) in
        let width := nth_error parts 0 in
        let height := nth_error parts 1 in
        if isNaN width || isNaN height then "unknown"
        else
          let w := to_num width in
          let h := to_num height in
          if num_eqb w 480 && num_eqb h 270 then "480p"
          else if num_eqb w 640 && num_eqb h 360 then "360p"
          else if num_eqb w 854 && num_eqb h 480 then "480p"
          else if num_eqb w 1280 && num_eqb h 720 then "720p"
          else if num_eqb w 1920 && num_eqb h 1080 then "1080p"
          else if num_eqb w 2560 && num_eqb h 1440 then "1440p"
          else if num_eqb w 3840 && num_eqb h 2160 then "4K"
          else if num_geb w 3840 || num_geb h 2160 then "4K"
          else if num_geb w 2560 || num_geb h 1440 then "1440p"
          else if num_geb w 1920 || num_geb h 1080 then "1080p"
          else if num_geb w 1280 || num_geb h 720 then "720p"
          else if num_geb w 854 || num_geb h 480 then "480p"
          else if num_geb w 640 || num_geb h 360 then "360p"
          else "unknown"
  end.

(** The longest prefix of decimal digits, and what follows it. *)
Fixpoint take_digits (s : string) : string * string :=
  match s with
  | EmptyString => (EmptyString, EmptyString)
  | String c r =>
      if is_digit c
      then let (d, rest) := take_digits r in (String c d, rest)
      else (EmptyString, s)
  end.

(** The pattern [(\d+)x(\d+)\/], tried on the text that follows a [/]. *)
Definition match_resolution (s : string) : option string :=
  let (w, r1) := take_digits s in
  match w, r1 with
  | String _ _, String "x" r2 =>
      let (h, r3) := take_digits r2 in
      match h, r3 with
      | String _ _, String "/" _ => Some (w ++ "x" ++ h)
      | _, _ => None
      end
  | _, _ => None
  end.

(** [url.match(/\/(\d+)x(\d+)\//)]: the leftmost position that matches. *)
Fixpoint search_resolution (s : string) : option string :=
  match s with
  | EmptyString => None
  | String c r =>
      if Ascii.eqb c "/" then
        match match_resolution r with
        | Some m => Some m
        | None => search_resolution r
        end
      else search_resolution r
  end.

(** [getResolutionFromUrl(url)] *)
Definition getResolutionFromUrl (url : option string) : option string :=
  match url with
  | None => None
  | Some s => if truthy (Some s) then search_resolution s else None
  end.

(** The pattern [\d{10,}], tried at the head of [s]. *)
Definition match_status_id (s : string) : option string :=
  let (d, _) := take_digits s in
  if (10 <=? String.length d)%nat then Some d else None.

(** [urlString.match(/\d{10,}/)], leftmost position first. *)
Fixpoint extractStatusIdFromUrl (urlString : string) : option string :=
  match match_status_id urlString with
  | Some d => Some d
  | None =>
      match urlString with
      | EmptyString => None
      | String _ r => extractStatusIdFromUrl r
      end
  end.

(** [width * height] of the parsed resolution of a variant. *)
Definition pixels (v : Variant.t) : Z :=
  let res := parseResolution (Some (Variant.resolution v)) in
  Resolution.width res * Resolution.height res.

(** The comparator handed to [item.variants.sort]. *)
Definition by_pixels (a b : Variant.t) : Z := pixels b - pixels a.

(** [q && q !== 'unknown'] *)
Definition known (q : string) : bool :=
  truthy (Some q) && negb (String.eqb q "unknown").

Definition with_variants (item : MediaItem.t) (vs : list Variant.t)
  : MediaItem.t :=
  MediaItem.make (MediaItem.type item) (MediaItem.url item)
    (MediaItem.download_url item) (MediaItem.thumbnail_url item)
    (MediaItem.duration item) (MediaItem.width item) (MediaItem.height item)
    (MediaItem.size item) vs (MediaItem.best_quality item)
    (MediaItem.available_qualities item)
    (MediaItem.available_resolutions item).

(** The variant made up for an item that has none. *)
Definition fallback_variant (item : MediaItem.t) : Variant.t :=
  let resolution :=
    or_default (or_else (getResolutionFromUrl (MediaItem.url item))
                        (MediaItem.size item))
               "unknown" in
  Variant.make (MediaItem.url item)
    (getQualityFromResolution (Some resolution)) None None resolution.

(** The callback of [mediaItems.map] in [enhanceMediaWithResolutions]. *)
Definition enhance (item : MediaItem.t) : MediaItem.t :=
  match MediaItem.type item with
  | video | gif =>
      let item1 :=
        match MediaItem.variants item with
        | [] => with_variants item [fallback_variant item]
        | _ => item
        end in
      let sorted := sort by_pixels (MediaItem.variants item1) in
      let item2 := with_variants item1 sorted in
      match sorted with
      | [] => item2
      | first :: _ =>
          MediaItem.make (MediaItem.type item2)
            (Variant.url first) (Variant.url first)
            (MediaItem.thumbnail_url item2) (MediaItem.duration item2)
            (MediaItem.width item2) (MediaItem.height item2)
            (MediaItem.size item2) sorted
            (Some (Variant.quality first))
            (Some (new_Set (filter known (map Variant.quality sorted))))
            (Some (new_Set (filter known (map Variant.resolution sorted))))
      end
  | photo => item
  end.

(** [enhanceMediaWithResolutions(mediaItems, tweetId)] *)
Definition enhanceMediaWithResolutions (mediaItems : list MediaItem.t)
  (tweetId : string) : list MediaItem.t :=
  map enhance mediaItems.

(** *** The download summary *)

(** What the handler needs of the host's [Date]: the current time as an
    ISO string, and [new Date(x).toISOString()] for a number of
    milliseconds and for a string, [None] when it throws a RangeError. *)
Record Host : Type := {
  now : string;
  iso_of_millis : Z -> option string;
  iso_of_text : string -> option string
}.

Module Filenames.
Record t : Type := make {
  default : string;
  simple : string;
  with_date : string
}.
End Filenames.

Module DownloadInfo.
Record t : Type := make {
  id : string;
  user_name : string;
  user_id : string;
  date_time : string;
  media_count : nat;
  total_files : nat;
  total_variants : nat;
  highest_quality : string;
  available_qualities : list string;
  available_resolutions : list string;
  suggested_filenames : Filenames.t
}.
End DownloadInfo.

Fixpoint map_chars (f : ascii -> ascii) (s : string) : string :=
  match s with
  | EmptyString => EmptyString
  | String c r => String (f c) (map_chars f r)
  end.

Fixpoint remove_chars (drop : ascii -> bool) (s : string) : string :=
  match s with
  | EmptyString => EmptyString
  | String c r =>
      if drop c then remove_chars drop r else String c (remove_chars drop r)
  end.

(** [s.replace('T', '-')]: the first occurrence only. *)
Fixpoint replace_first_T (s : string) : string :=
  match s with
  | EmptyString => EmptyString
  | String c r =>
      if Ascii.eqb c "T" then String "-" r else String c (replace_first_T r)
  end.

(** [s.split('.')[0]] *)
Fixpoint before_dot (s : string) : string :=
  match s with
  | EmptyString => EmptyString
  | String c r =>
      if Ascii.eqb c "." then EmptyString else String c (before_dot r)
  end.

(** [iso.replace(/[-:]/g, '').replace('T', '-').split('.')[0]] *)
Definition format_date (iso : string) : string :=
  before_dot
    (replace_first_T
       (remove_chars (fun c => Ascii.eqb c "-" || Ascii.eqb c ":") iso)).

(** The characters of the class in [cleanName]: \ / : * ? double quote
    < > and the vertical bar. *)
Definition reserved (c : ascii) : bool :=
  existsb (Nat.eqb (nat_of_ascii c))
          [92; 47; 58; 42; 63; 34; 60; 62; 124]%nat.

Definition cleanName (str : string) : string :=
  String.substring 0 50
    (map_chars (fun c => if reserved c then "_"%char else c)
               (or_default (Some str) "unknown")).

(** [qualityOrder[q] || 0] *)
Definition qualityOrder (q : string) : Z :=
  if String.eqb q "4K" then 6
  else if String.eqb q "1440p" then 5
  else if String.eqb q "1080p" then 4
  else if String.eqb q "720p" then 3
  else if String.eqb q "480p" then 2
  else if String.eqb q "360p" then 1
  else 0.

Definition label_pixels (r : string) : Z :=
  let res := parseResolution (Some r) in
  Resolution.width res * Resolution.height res.

Section WithHost.
Variable host : Host.

(** [new Date(created_at || new Date()).toISOString()] *)
Definition date_iso (created_at : timestamp) : option string :=
  match created_at with
  | TsText s => if truthy (Some s) then iso_of_text host s
                else Some (now host)
  | TsNumber n => if n =? 0 then Some (now host) else iso_of_millis host n
  end.

(** [generateDownloadInfo(mediaData, tweetId)]; [None] when
    [toISOString] throws. *)
Definition generateDownloadInfo (mediaData : Result.t) (tweetId : string)
  : option DownloadInfo.t :=
  let user := Result.user mediaData in
  match date_iso (Result.created_at mediaData) with
  | None => None
  | Some iso =>
      let formattedDate := format_date iso in
      let userScreenName :=
        or_default (Some (User.screen_name user)) "unknown" in
      let userName := or_default (Some (User.name user)) "Unknown" in
      let all_variants :=
        flat_map MediaItem.variants (Result.media mediaData) in
      let totalVariants := List.length all_variants in
      let availableQualities :=
        new_Set (filter known (map Variant.quality all_variants)) in
      let availableResolutions :=
        new_Set (filter known (map Variant.resolution all_variants)) in
      let sortedQualities :=
        sort (fun a b => qualityOrder b - qualityOrder a)
             availableQualities in
      let sortedResolutions :=
        sort (fun a b => label_pixels b - label_pixels a)
             availableResolutions in
      Some (DownloadInfo.make tweetId (cleanName userName) userScreenName
              formattedDate
              (List.length (Result.media mediaData))
              (List.length (Result.media mediaData))
              totalVariants
              (or_default (hd_error sortedQualities) "unknown")
              sortedQualities sortedResolutions
              (Filenames.make
                 ("content_" ++ cleanName userName ++ "_" ++ tweetId)
                 (userScreenName ++ "_" ++ tweetId)
                 (formattedDate ++ "_" ++ userScreenName ++ "_"
                    ++ tweetId)))
  end.
End WithHost.

(** *** The request handler *)

(** The three asynchronous extractors the handler awaits. *)
Inductive extractor : Type :=
| fetchViaSyndicationAPI
| fetchViaFxtwitterAPI
| fetchViaHTMLScraping.

(** A computation that may await extractors: it returns, or it calls an
    extractor on an identifier and goes on with what that resolves to
    ([None] for [null]). *)
Inductive prog (R : Type) : Type :=
| Ret (r : R)
| Call (e : extractor) (tweetId : string)
       (k : option Result.t -> prog R).

Arguments Ret {R} r.
Arguments Call {R} e tweetId k.

(** The upstream services, as what each extractor resolves to. *)
Definition network : Type := extractor -> string -> option Result.t.

(** Running a computation against a network: the value returned and the
    extractor calls issued, in order. *)
Fixpoint run {R : Type} (net : network) (p : prog R)
  : R * list (extractor * string) :=
  match p with
  | Ret r => (r, [])
  | Call e tweetId k =>
      let (r, calls) := run net (k (net e tweetId)) in
      (r, (e, tweetId) :: calls)
  end.

(** The JSON bodies the handler sends. *)
Inductive body : Type :=
| Failure (error : string) (id : option string)
| Success (url id method : string) (user : User.t) (text : string)
          (created_at : timestamp) (media : list MediaItem.t)
          (media_count : nat) (download_info : DownloadInfo.t).

Definition success (b : body) : bool :=
  match b with
  | Failure _ _ => false
  | Success _ _ _ _ _ _ _ _ _ => true
  end.

Module Response.
Record t : Type := make {
  status : Z;
  headers : list (string * string);
  json : body
}.
End Response.

Definition corsHeaders (contentType : option string)
  : list (string * string) :=
  [("Access-Control-Allow-Origin", "*");
   ("Access-Control-Allow-Methods", "GET, POST, OPTIONS");
   ("Access-Control-Allow-Headers", "Content-Type")]
  ++ match contentType with
     | Some t => if truthy contentType then [("Content-Type", t)] else []
     | None => []
     end.

Definition jsonResponse (data : body) (status : Z) : Response.t :=
  Response.make status (corsHeaders (Some "application/json")) data.

(** [result && result.media && result.media.length > 0] *)
Definition has_media (result : option Result.t) : bool :=
  match result with
  | Some r => match Result.media r with [] => false | _ :: _ => true end
  | None => false
  end.

Definition with_media (r : Result.t) (m : list MediaItem.t) : Result.t :=
  Result.make (Result.method r) (Result.user r) (Result.text r)
              (Result.created_at r) m.

Definition with_method (r : Result.t) (m : string) : Result.t :=
  Result.make m (Result.user r) (Result.text r) (Result.created_at r)
              (Result.media r).

Definition with_created_at (r : Result.t) (c : timestamp) : Result.t :=
  Result.make (Result.method r) (Result.user r) (Result.text r) c
              (Result.media r).

Section Handler.
Variable host : Host.

Definition invalid_url : Response.t :=
  jsonResponse (Failure "Invalid URL" None) 400.

Definition not_available (statusId : string) : Response.t :=
  jsonResponse (Failure "Content not available" (Some statusId)) 404.

(** What the [catch] clause of the handler sends. *)
Definition service_error : Response.t :=
  jsonResponse (Failure "Service error" None) 500.

(** The handler from the second availability check on, with the result
    chosen so far. *)
Definition respond (tweetUrl statusId : string)
  (syndicationResult result : option Result.t) : Response.t :=
  match result with
  | Some r =>
      if negb (has_media result) then not_available statusId
      else
        let r1 :=
          match syndicationResult with
          | Some a =>
              if has_media syndicationResult
              then with_method
                     (with_media r
                        (enhanceMediaWithResolutions (Result.media a)
                                                     statusId))
                     "api_a"
              else with_media r
                     (enhanceMediaWithResolutions (Result.media r)
                                                  statusId)
          | None =>
              with_media r
                (enhanceMediaWithResolutions (Result.media r) statusId)
          end in
        let fixed :=
          match Result.created_at r1 with
          | TsNumber n =>
              match iso_of_millis host (n * 1000) with
              | Some iso => Some (with_created_at r1 (TsText iso))
              | None => None
              end
          | TsText _ => Some r1
          end in
        match fixed with
        | Some r2 =>
            match generateDownloadInfo host r2 statusId with
            | Some info =>
                jsonResponse
                  (Success tweetUrl statusId
                     (or_default (Some (Result.method r2)) "standard")
                     (Result.user r2) (Result.text r2)
                     (Result.created_at r2) (Result.media r2)
                     (List.length (Result.media r2)) info)
                  200
            | None => service_error
            end
        | None => service_error
        end
  | None => not_available statusId
  end.

(** [handleScrapeRequestDirect(tweetUrl)] *)
Definition handleScrapeRequestDirect (tweetUrl : string)
  : prog Response.t :=
  let statusId := extractStatusIdFromUrl tweetUrl in
  match statusId with
  | Some id =>
      if negb (truthy statusId) then Ret invalid_url
      else
        Call fetchViaSyndicationAPI id (fun syndicationResult =>
        Call fetchViaFxtwitterAPI id (fun fxtwitterResult =>
          let result :=
            match syndicationResult with
            | Some _ => syndicationResult
            | None => fxtwitterResult
            end in
          if negb (has_media result)
          then Call fetchViaHTMLScraping id (fun result =>
                 Ret (respond tweetUrl id syndicationResult result))
          else Ret (respond tweetUrl id syndicationResult result)))
  | None => Ret invalid_url
  end.
End Handler.

(** *** The two structured extractors, from the payload on *)

(** What an upstream request comes to: an exception (network or JSON
    error), a response that is not ok, or the JSON of an ok response. *)
Inductive reply (D : Type) : Type :=
| Throws
| NotOk
| Ok (data : D).

Arguments Throws {D}.
Arguments NotOk {D}.
Arguments Ok {D} data.

(** The payload of source A, as far as the extractor reads it. *)
Module SynPhoto.
Record t : Type := make {
  url : option string;
  width : option Z;
  height : option Z
}.
End SynPhoto.

Module SynVariant.
Record t : Type := make {
  type : option string;
  src : option string;
  bitrate : option Z;
  content_type : option string
}.
End SynVariant.

Module SynVideo.
Record t : Type := make {
  thumbnail_url : option string;
  duration : option Z;
  width : option Z;
  height : option Z;
  variants : option (list SynVariant.t)
}.
End SynVideo.

Module SynUser.
Record t : Type := make {
  name : option string;
  screen_name : option string;
  profile_image_url_https : option string
}.
End SynUser.

Module SynData.
Record t : Type := make {
  user : option SynUser.t;
  text : option string;
  created_at : option string;
  photos : option (list SynPhoto.t);
  video : option SynVideo.t;
  animated_gif : option SynVideo.t
}.
End SynData.

(** The payload of source B, as far as the extractor reads it; [media] is
    [data.tweet.media], and inside it the array [all]. *)
Module FxMedia.
Record t : Type := make {
  type : string;
  url : option string;
  thumbnail_url : option string;
  duration : option Z;
  width : option Z;
  height : option Z
}.
End FxMedia.

Module FxAuthor.
Record t : Type := make {
  name : option string;
  screen_name : option string;
  avatar_url : option string
}.
End FxAuthor.

Module FxTweet.
Record t : Type := make {
  author : option FxAuthor.t;
  text : option string;
  created_timestamp : option Z;
  media : option (option (list FxMedia.t))
}.
End FxTweet.

(** The item source A pushes for one entry of [data.photos]. *)
Definition photo_item_A (entry : SynPhoto.t) : MediaItem.t :=
  let orig := render_string (SynPhoto.url entry) ++ "?format=jpg&name=orig" in
  let dims := render (SynPhoto.width entry) ++ "x"
              ++ render (SynPhoto.height entry) in
  MediaItem.make photo (SynPhoto.url entry) (Some orig) None None
    (SynPhoto.width entry) (SynPhoto.height entry) (Some dims)
    [Variant.make (Some orig) "original" None None dims]
    None None None.

(** [v.type === 'video/mp4'] *)
Definition is_mp4 (v : SynVariant.t) : bool :=
  match SynVariant.type v with
  | Some t => String.eqb t "video/mp4"
  | None => false
  end.

(** The variant source A makes of one rendition; [size] is the width and
    height of the video, rendered. *)
Definition variant_A (size : string) (variant : SynVariant.t) : Variant.t :=
  let resolution :=
    or_default (getResolutionFromUrl (SynVariant.src variant)) size in
  Variant.make (SynVariant.src variant)
    (getQualityFromResolution (Some resolution))
    (SynVariant.bitrate variant)
    (Some (or_default (SynVariant.content_type variant) "video/mp4"))
    resolution.

(** The item source A pushes for [data.video]. *)
Definition video_item_A (v : SynVideo.t) : MediaItem.t :=
  let size := render (SynVideo.width v) ++ "x"
              ++ render (SynVideo.height v) in
  let mp4Variants :=
    match SynVideo.variants v with
    | Some vs =>
        sort by_pixels
          (map (variant_A size)
               (filter (fun x => is_mp4 x && truthy (SynVariant.src x)) vs))
    | None => []
    end in
  match mp4Variants with
  | first :: _ =>
      MediaItem.make video (Variant.url first) (Variant.url first)
        (SynVideo.thumbnail_url v) (SynVideo.duration v)
        (SynVideo.width v) (SynVideo.height v) (Some size) mp4Variants
        (Some (Variant.quality first)) None None
  | [] =>
      MediaItem.make video None None
        (SynVideo.thumbnail_url v) (SynVideo.duration v)
        (SynVideo.width v) (SynVideo.height v) (Some size) []
        None None None
  end.

(** The item source A pushes for [data.animated_gif]. *)
Definition gif_item_A (g : SynVideo.t) : MediaItem.t :=
  let size := render (SynVideo.width g) ++ "x"
              ++ render (SynVideo.height g) in
  let gifVariants :=
    match SynVideo.variants g with
    | Some vs => sort by_pixels (map (variant_A size) (filter is_mp4 vs))
    | None => []
    end in
  match gifVariants with
  | first :: _ =>
      MediaItem.make gif (Variant.url first) (Variant.url first)
        (SynVideo.thumbnail_url g) None
        (SynVideo.width g) (SynVideo.height g) (Some size) gifVariants
        None None None
  | [] =>
      MediaItem.make gif None None
        (SynVideo.thumbnail_url g) None
        (SynVideo.width g) (SynVideo.height g) (Some size) []
        None None None
  end.

(** The item source B pushes for a photo of [data.tweet.media.all]. *)
Definition photo_item_B (media : FxMedia.t) : MediaItem.t :=
  let dims := render (FxMedia.width media) ++ "x"
              ++ render (FxMedia.height media) in
  MediaItem.make photo (FxMedia.url media) (FxMedia.url media) None None
    (FxMedia.width media) (FxMedia.height media) (Some dims)
    [Variant.make (FxMedia.url media) "original" None None dims]
    None None None.

(** The item source B pushes for a video or a gif. *)
Definition video_item_B (media_type : kind) (media : FxMedia.t)
  : MediaItem.t :=
  let dims := render (FxMedia.width media) ++ "x"
              ++ render (FxMedia.height media) in
  MediaItem.make media_type (FxMedia.url media) (FxMedia.url media)
    (FxMedia.thumbnail_url media) (FxMedia.duration media)
    (FxMedia.width media) (FxMedia.height media) (Some dims)
    [Variant.make (FxMedia.url media)
                  (getQualityFromResolution (Some dims)) None None dims]
    None None None.

(** The callback of [data.tweet.media.all.forEach]: the item pushed for
    one entry, if any. *)
Definition item_B (media : FxMedia.t) : option MediaItem.t :=
  if String.eqb (FxMedia.type media) "photo" && truthy (FxMedia.url media)
  then Some (photo_item_B media)
  else if String.eqb (FxMedia.type media) "video"
          && truthy (FxMedia.url media)
  then Some (video_item_B video media)
  else if String.eqb (FxMedia.type media) "gif"
          && truthy (FxMedia.url media)
  then Some (video_item_B gif media)
  else None.

Fixpoint filter_map {A B : Type} (f : A -> option B) (l : list A) : list B :=
  match l with
  | [] => []
  | x :: r =>
      match f x with
      | Some y => y :: filter_map f r
      | None => filter_map f r
      end
  end.

Section Extractors.
Variable host : Host.

(** The result source A builds from one payload, [None] when the payload
    has none of [photos], [video] and [animated_gif]. *)
Definition syndication_result (data : SynData.t) : option Result.t :=
  match SynData.photos data, SynData.video data,
        SynData.animated_gif data with
  | None, None, None => None
  | photos, video_data, gif_data =>
      let field (get : SynUser.t -> option string) :=
        match SynData.user data with
        | Some u => get u
        | None => None
        end in
      Some (Result.make "api_a"
              (User.make
                 (or_default (field SynUser.name) "Unknown")
                 (or_default (field SynUser.screen_name) "unknown")
                 (or_default (field SynUser.profile_image_url_https)
                             EmptyString))
              (or_default (SynData.text data) EmptyString)
              (TsText (or_default (SynData.created_at data) (now host)))
              (match photos with
               | Some ps => map photo_item_A ps
               | None => []
               end
               ++ match video_data with
                  | Some v => [video_item_A v]
                  | None => []
                  end
               ++ match gif_data with
                  | Some g => [gif_item_A g]
                  | None => []
                  end)%list)
  end.

(** [fetchViaSyndicationAPI(tweetId)], given what the endpoints reply, in
    the order in which they are tried. *)
Fixpoint syndication_outcome (replies : list (reply SynData.t))
  : option Result.t :=
  match replies with
  | [] => None
  | Throws :: _ => None
  | NotOk :: rest => syndication_outcome rest
  | Ok data :: rest =>
      match syndication_result data with
      | Some result => Some result
      | None => syndication_outcome rest
      end
  end.

(** [fetchViaFxtwitterAPI(tweetId)], given what the endpoint replies. *)
Definition fxtwitter_outcome (r : reply (option FxTweet.t))
  : option Result.t :=
  match r with
  | Ok (Some tweet) =>
      match FxTweet.media tweet with
      | Some (Some all) =>
          let field (get : FxAuthor.t -> option string) :=
            match FxTweet.author tweet with
            | Some a => get a
            | None => None
            end in
          Some (Result.make "api_b"
                  (User.make
                     (or_default (field FxAuthor.name) "Unknown")
                     (or_default (field FxAuthor.screen_name) "unknown")
                     (or_default (field FxAuthor.avatar_url) EmptyString))
                  (or_default (FxTweet.text tweet) EmptyString)
                  (match FxTweet.created_timestamp tweet with
                   | Some n => if n =? 0 then TsText (now host)
                               else TsNumber n
                   | None => TsText (now host)
                   end)
                  (filter_map item_B all))
      | Some None => None
      | None => None
      end
  | _ => None
  end.
End Extractors.

(** *** The unstructured extractor, from the page text on *)

(** [s] without the prefix [p], when [s] starts with [p]. *)
Fixpoint strip_prefix (p s : string) : option string :=
  match p, s with
  | EmptyString, _ => Some s
  | String a p', String b s' =>
      if Ascii.eqb a b then strip_prefix p' s' else None
  | String _ _, EmptyString => None
  end.

(** The longest prefix of characters that pass [f], and what follows. *)
Fixpoint take_while (f : ascii -> bool) (s : string) : string * string :=
  match s with
  | EmptyString => (EmptyString, EmptyString)
  | String c r =>
      if f c then let (t, rest) := take_while f r in (String c t, rest)
      else (EmptyString, s)
  end.

(** The class of the patterns: any character but the two quotes and
    white space. *)
Definition url_char (c : ascii) : bool :=
  negb ((nat_of_ascii c =? 34)%nat || (nat_of_ascii c =? 39)%nat
        || is_space c).

(** What the greedy star followed by [\.mp4] takes of a run of class
    characters: the run up to the end of its last [.mp4]. *)
Fixpoint upto_last_mp4 (run : string) : option string :=
  match run with
  | EmptyString => None
  | String c r =>
      match upto_last_mp4 r with
      | Some t => Some (String c t)
      | None =>
          match strip_prefix ".mp4" run with
          | Some _ => Some ".mp4"
          | None => None
          end
      end
  end.

Definition cdn : string := "https://video.twimg.com/".

(** A pattern tried at the head of [s]: the text matched, if any.  The
    first and the fourth pattern are a literal followed by the star. *)
Definition match_literal (literal s : string) : option string :=
  match strip_prefix literal s with
  | Some rest =>
      option_map (append literal)
                 (upto_last_mp4 (fst (take_while url_char rest)))
  | None => None
  end.

(** The second and the third pattern: a literal, digits, a slash, the
    star. *)
Definition match_numbered (literal s : string) : option string :=
  match strip_prefix literal s with
  | Some rest =>
      match take_digits rest with
      | ((String _ _) as d, String "/" r) =>
          option_map (fun t => literal ++ d ++ "/" ++ t)
                     (upto_last_mp4 (fst (take_while url_char r)))
      | _ => None
      end
  | None => None
  end.

Definition videoPatterns : list (string -> option string) :=
  [ match_literal cdn;
    match_numbered (cdn ++ "amplify_video/");
    match_numbered (cdn ++ "ext_tw_video/");
    match_literal (cdn ++ "tweet_video/") ].

(** [html.match(pattern) || []] for a global pattern: the matches from
    left to right, each search resuming where the last match ended;
    [skip] counts the characters of a match still to pass. *)
Fixpoint scan (pattern : string -> option string) (skip : nat)
  (html : string) : list string :=
  match html with
  | EmptyString => []
  | String _ r =>
      match skip with
      | S k => scan pattern k r
      | O =>
          match pattern html with
          | Some m => m :: scan pattern (String.length m - 1) r
          | None => scan pattern 0 r
          end
      end
  end.

(** The variant pushed for a locator not seen before. *)
Definition variant_C (url : string) : Variant.t :=
  let resolution :=
    match search_resolution url with
    | Some r => r
    | None => "unknown"
    end in
  Variant.make (Some url) (getQualityFromResolution (Some resolution))
               None (Some "video/mp4") resolution.

(** The body of [matches.forEach]: [variants] and [seenUrls] after one
    locator. *)
Definition visit (state : list Variant.t * list string) (url : string)
  : list Variant.t * list string :=
  let (variants, seenUrls) := state in
  if existsb (String.eqb url) seenUrls then state
  else ((variants ++ [variant_C url])%list, set_add url seenUrls).

(** [extractAllVideoVariantsFromHTML(html)] *)
Definition extractAllVideoVariantsFromHTML (html : string)
  : list Variant.t :=
  fst (fold_left
         (fun state pattern => fold_left visit (scan pattern 0 html) state)
         videoPatterns ([], [])).

(** [url.match(/amplify_video\/(\d+)/)]: the digits captured at the
    leftmost match. *)
Fixpoint amplify_id (url : string) : option string :=
  match
    match strip_prefix "amplify_video/" url with
    | Some rest =>
        match fst (take_digits rest) with
        | EmptyString => None
        | d => Some d
        end
    | None => None
    end
  with
  | Some d => Some d
  | None =>
      match url with
      | EmptyString => None
      | String _ r => amplify_id r
      end
  end.

Definition videoId (variant : Variant.t) : string :=
  match Variant.url variant with
  | Some url =>
      match amplify_id url with
      | Some d => d
      | None => "unknown"
      end
  | None => "unknown"
  end.

(** [groupedVariants], an object used as a map: its properties in the
    order in which they were created. *)
Fixpoint group_push (key : string) (variant : Variant.t)
  (grouped : list (string * list Variant.t))
  : list (string * list Variant.t) :=
  match grouped with
  | [] => [(key, [variant])]
  | (k, vs) :: rest =>
      if String.eqb key k then (k, (vs ++ [variant])%list) :: rest
      else (k, vs) :: group_push key variant rest
  end.

(** A property name that is an array index: a canonical decimal numeral
    below 2^32 - 1. *)
Definition is_array_index (key : string) : bool :=
  match key with
  | EmptyString => false
  | String "0" EmptyString => true
  | String "0" _ => false
  | _ => all_digits key && (digits_value 0 key <=? 4294967294)
  end.

(** [Object.values(o)]: the array indices in ascending order first, then
    the other names in order of creation. *)
Definition Object_values {V : Type} (o : list (string * V)) : list V :=
  map snd
      (sort (fun a b => digits_value 0 (fst a) - digits_value 0 (fst b))
            (filter (fun e => is_array_index (fst e)) o)
       ++ filter (fun e => negb (is_array_index (fst e))) o)%list.

(** The item pushed for one group of variants. *)
Definition item_C (variants : list Variant.t) : option MediaItem.t :=
  match sort by_pixels variants with
  | [] => None
  | (bestVariant :: _) as sorted =>
      Some (MediaItem.make video
              (Variant.url bestVariant) (Variant.url bestVariant)
              (Some EmptyString) None None None None sorted
              (Some (Variant.quality bestVariant))
              (Some (new_Set (map Variant.quality sorted)))
              (Some (new_Set (map Variant.resolution sorted))))
  end.

Section Scraping.
Variable host : Host.

(** [fetchViaHTMLScraping(tweetId)], given what the page request comes
    to. *)
Definition scraping_outcome (r : reply string) : option Result.t :=
  match r with
  | Ok html =>
      match extractAllVideoVariantsFromHTML html with
      | [] => None
      | videoVariants =>
          let groupedVariants :=
            fold_left (fun grouped variant =>
                         group_push (videoId variant) variant grouped)
                      videoVariants [] in
          match filter_map item_C (Object_values groupedVariants) with
          | [] => None
          | media =>
              Some (Result.make "api_c"
                      (User.make "Unknown" "unknown" EmptyString)
                      "Extracted content" (TsText (now host)) media)
          end
      end
  | _ => None
  end.

(** The upstream services as they reply for an identifier, and the
    network they make. *)
Record Upstream : Type := {
  syndication_replies : string -> list (reply SynData.t);
  fxtwitter_reply : string -> reply (option FxTweet.t);
  page_reply : string -> reply string
}.

Definition network_of (u : Upstream) : network :=
  fun e tweetId =>
    match e with
    | fetchViaSyndicationAPI =>
        syndication_outcome host (syndication_replies u tweetId)
    | fetchViaFxtwitterAPI =>
        fxtwitter_outcome host (fxtwitter_reply u tweetId)
    | fetchViaHTMLScraping => scraping_outcome (page_reply u tweetId)
    end.

(** What [request.json()] and the destructuring of [url] come to in
    [handleScrapeRequest]: an exception, a value whose [url] is not a
    string, or the string. *)
Inductive posted : Type :=
| BadBody
| NoUrl
| Url (url : string).

(** [handleScrapeRequest(request)] *)
Definition handleScrapeRequest (body : posted) : prog Response.t :=
  match body with
  | BadBody => Ret (jsonResponse (Failure "Invalid request" None) 400)
  | NoUrl => Ret (service_error)
  | Url url => handleScrapeRequestDirect host url
  end.
End Scraping.

End Twitter.

(** ** The specification's vocabulary *)

Module Spec.
Import JS Twitter.

(** The width and the height the classifier reads off a label: the first
    two pieces of [resolution.split('x').map(Number)], NaN when absent. *)
Definition parsed_width (resolution : option string) : jsnum :=
  match resolution with
  | Some s => to_num (nth_error (map Number (split_x s)) 0)
  | None => NaN
  end.

Definition parsed_height (resolution : option string) : jsnum :=
  match resolution with
  | Some s => to_num (nth_error (map Number (split_x s)) 1)
  | None => NaN
  end.

(** The seven canonical resolutions and their tiers (section 4.2). *)
Definition canonical : list (Z * Z * string) :=
  [ (480, 270, "480p"); (640, 360, "360p"); (854, 480, "480p");
    (1280, 720, "720p"); (1920, 1080, "1080p"); (2560, 1440, "1440p");
    (3840, 2160, "4K") ].

(** The descending thresholds on width and on height (section 4.2). *)
Definition thresholds : list (Z * Z * string) :=
  [ (3840, 2160, "4K"); (2560, 1440, "1440p"); (1920, 1080, "1080p");
    (1280, 720, "720p"); (854, 480, "480p"); (640, 360, "360p") ].

Definition first_tier (hit : Z * Z * string -> bool)
  (table : list (Z * Z * string)) : option string :=
  option_map snd (find hit table).

(** The classifier's policy in the words of section 4.2: an exact match in
    the canonical table, otherwise the first threshold reached by the
    width or by the height, otherwise "unknown". *)
Definition tier_policy (w h : jsnum) : string :=
  match w, h with
  | Num w, Num h =>
      match first_tier (fun e => (w =? fst (fst e)) && (h =? snd (fst e)))
                       canonical with
      | Some t => t
      | None =>
          match first_tier
                  (fun e => (fst (fst e) <=? w) || (snd (fst e) <=? h))
                  thresholds with
          | Some t => t
          | None => "unknown"
          end
      end
  | _, _ => "unknown"
  end.

(** A label that splits at its [x] into exactly two numeric pieces. *)
Definition two_numeric_components (s : string) : Prop :=
  exists a b, split_x s = [a; b] /\ Number a <> NaN /\ Number b <> NaN.

(** A reference with a run of ten or more consecutive decimal digits. *)
Definition has_digit_run (s : string) : Prop :=
  exists before run after,
    s = before ++ run ++ after /\
    (10 <= String.length run)%nat /\ all_digits run = true.

(** The distinct elements of a list, each where it is first seen. *)
Fixpoint distinct (l : list string) : list string :=
  match l with
  | [] => []
  | x :: t => x :: remove string_dec x (distinct t)
  end.

Definition not_unknown (q : string) : bool := negb (String.eqb q "unknown").

(** The primary locator is the locator of the first variant. *)
Definition primary_is_first (item : MediaItem.t) : Prop :=
  option_map Variant.url (hd_error (MediaItem.variants item))
  = Some (MediaItem.url item).

(** The [media] array of a response; a failure body has none. *)
Definition response_media (r : Response.t) : list MediaItem.t :=
  match Response.json r with
  | Success _ _ _ _ _ _ media _ _ => media
  | Failure _ _ => []
  end.

(** No media from an extractor: [null], or an empty [media] array. *)
Definition no_media (result : option Result.t) : Prop :=
  has_media result = false.

(** The first of A, B, C, in that order, whose result has media. *)
Definition first_with_media (a b c : option Result.t) : option Result.t :=
  if has_media a then a
  else if has_media b then b
  else if has_media c then c
  else None.

(** A network that answers each extractor with a fixed outcome. *)
Definition outcomes (a b c : option Result.t) : network :=
  fun e _ =>
    match e with
    | fetchViaSyndicationAPI => a
    | fetchViaFxtwitterAPI => b
    | fetchViaHTMLScraping => c
    end.

(** What every extractor guarantees of the items it builds: a photo item
    carries no ranking fields, and no variant has an empty label. *)
Definition extractor_item (item : MediaItem.t) : Prop :=
  (MediaItem.type item = photo ->
     MediaItem.best_quality item = None /\
     MediaItem.available_qualities item = None /\
     MediaItem.available_resolutions item = None) /\
  Forall (fun v => Variant.quality v <> EmptyString /\
                   Variant.resolution v <> EmptyString)
         (MediaItem.variants item).

(** A video variant with nothing but its resolution label. *)
Definition labelled (resolution : string) : Variant.t :=
  Variant.make None (getQualityFromResolution (Some resolution))
               None None resolution.

(** A video item with nothing but its variants. *)
Definition video_of (vs : list Variant.t) : MediaItem.t :=
  MediaItem.make video None None None None None None None vs
                 None None None.

(** The variants the ranker sorts: the item's own, or the one made up for
    an item that has none. *)
Definition raw_variants (item : MediaItem.t) : list Variant.t :=
  match MediaItem.variants item with
  | [] => [fallback_variant item]
  | vs => vs
  end.

(** Sample items and extractor outcomes for the worked cases below. *)
Definition sample_photo_A : MediaItem.t :=
  photo_item_A (SynPhoto.make (Some "https://pbs.twimg.com/media/a.jpg")
                              (Some 1200) (Some 800)).

Definition sample_photo_B : MediaItem.t :=
  photo_item_B (FxMedia.make "photo" (Some "https://pbs.twimg.com/media/b.jpg")
                             None None (Some 1200) (Some 800)).

Definition sample_video_B : MediaItem.t :=
  video_item_B video
    (FxMedia.make "video" (Some "https://video.twimg.com/v.mp4")
                  None None (Some 1280) (Some 720)).

(** Payloads of source A: a tweet whose [photos] array is empty, a tweet
    with one photo, and a tweet with a video in two renditions. *)
Definition payload_A_no_photos : SynData.t :=
  SynData.make None None None (Some []) None None.

Definition payload_A_photo : SynData.t :=
  SynData.make None None None
    (Some [SynPhoto.make (Some "https://pbs.twimg.com/media/a.jpg")
                         (Some 1200) (Some 800)])
    None None.

Definition sample_video : SynVideo.t :=
  SynVideo.make None (Some 30) (Some 1280) (Some 720)
    (Some [ SynVariant.make (Some "video/mp4")
              (Some "https://video.twimg.com/vid/640x360/a.mp4")
              (Some 832000) None;
            SynVariant.make (Some "application/x-mpegURL")
              (Some "https://video.twimg.com/pl/a.m3u8") None None;
            SynVariant.make (Some "video/mp4")
              (Some "https://video.twimg.com/vid/1280x720/a.mp4")
              (Some 2176000) None ]).

Definition payload_A_video : SynData.t :=
  SynData.make None None None None (Some sample_video) None.

Definition sample_video_A : MediaItem.t := video_item_A sample_video.

(** A payload of source B with one photo. *)
Definition payload_B_photo : FxTweet.t :=
  FxTweet.make None None None
    (Some (Some [FxMedia.make "photo"
                   (Some "https://pbs.twimg.com/media/b.jpg")
                   None None (Some 1200) (Some 800)])).

Definition sample_url : string := "https://x.com/u/status/1234567890123".

(** A host whose clock and date conversions are constant. *)
Definition fixed_host : Host :=
  {| now := "2025-12-29T00:00:00.000Z";
     iso_of_millis := fun _ => Some "2025-12-29T00:00:00.000Z";
     iso_of_text := fun _ => Some "2025-12-29T00:00:00.000Z" |}.

(** Every character of a string passes a test. *)
Fixpoint every (f : ascii -> bool) (s : string) : bool :=
  match s with
  | EmptyString => true
  | String c r => f c && every f r
  end.

(** [s] begins with [p], ends with [p], has [p] somewhere inside. *)
Definition starts_with (p s : string) : Prop := exists t, s = p ++ t.

Definition ends_with (p s : string) : Prop := exists t, s = t ++ p.

Definition contains (p s : string) : Prop := exists a b, s = a ++ p ++ b.

(** A video as source B would push it, with its variants taken away. *)
Definition sample_bare_video : MediaItem.t :=
  MediaItem.make video (Some "https://video.twimg.com/vid/640x360/a.mp4")
    (Some "https://video.twimg.com/vid/640x360/a.mp4") None None
    (Some 1280) (Some 720) (Some "1280x720") [] None None None.

(** An endpoint reply that gives source A nothing to return: a
    response that is not ok, or a payload without a media field. *)
Definition fruitless (host : Host) (r : reply SynData.t) : Prop :=
  r = NotOk \/ exists data, r = Ok data /\ syndication_result host data = None.

(** A payload of source B with a video, an entry of a kind the extractor
    does not know, and a photo without a locator. *)
Definition payload_B_mixed : FxTweet.t :=
  FxTweet.make None (Some "hello") (Some 1766966400)
    (Some (Some [ FxMedia.make "video"
                    (Some "https://video.twimg.com/v.mp4")
                    None (Some 12) (Some 1280) (Some 720);
                  FxMedia.make "poll" (Some "https://x.com/p") None None
                               None None;
                  FxMedia.make "photo" None None None
                               (Some 1200) (Some 800) ])).

(** What the four patterns match on a page, pattern after pattern. *)
Definition all_matches (html : string) : list string :=
  flat_map (fun pattern => scan pattern 0 html) videoPatterns.

(** What a match of one of the four patterns looks like. *)
Definition is_locator (m : string) : Prop :=
  starts_with cdn m /\ ends_with ".mp4" m /\ every url_char m = true.

(** A page with two renditions of one video, one of them twice, and a
    rendition outside any numbered group. *)
Definition sample_page : string :=
  "<a href='https://video.twimg.com/amplify_video/123/vid/640x360/a.mp4'>"
  ++ " <b src='https://video.twimg.com/amplify_video/123/vid/1280x720/b.mp4'>"
  ++ " https://video.twimg.com/tweet_video/c.mp4"
  ++ " https://video.twimg.com/amplify_video/123/vid/640x360/a.mp4 ".

(** Upstream services of which the first has nothing, the second a
    video among entries it cannot use, and the page the sample locators. *)
Definition sample_upstream : Upstream :=
  {| syndication_replies := fun _ => [NotOk; NotOk; NotOk];
     fxtwitter_reply := fun _ => Ok (Some payload_B_mixed);
     page_reply := fun _ => Ok sample_page |}.

(** The result the handler summarises for the sample video of source A. *)
Definition sample_answer : Result.t :=
  Result.make "api_a" (User.make "Unknown" "unknown" EmptyString)
    EmptyString (TsText "2025-12-29T00:00:00.000Z")
    [enhance sample_video_A].

(** The threshold tests of the classifier on their own, as they follow
    the exact matches in the source. *)
Definition by_thresholds (w h : Z) : string :=
  if (3840 <=? w) || (2160 <=? h) then "4K"
  else if (2560 <=? w) || (1440 <=? h) then "1440p"
  else if (1920 <=? w) || (1080 <=? h) then "1080p"
  else if (1280 <=? w) || (720 <=? h) then "720p"
  else if (854 <=? w) || (480 <=? h) then "480p"
  else if (640 <=? w) || (360 <=? h) then "360p"
  else "unknown".

(** A JSON number that may be absent, read with 0 for [undefined]. *)
Definition or_0 (n : option Z) : Z :=
  match n with
  | Some z => z
  | None => 0
  end.

(** [syndicationResult || fxtwitterResult] *)
Definition either (a b : option Result.t) : option Result.t :=
  match a with
  | Some _ => a
  | None => b
  end.

(** The result the handler answers from: that of [either], or what source
    C resolves to when that one has no media. *)
Definition settled (net : network) (id : string) : option Result.t :=
  let result :=
    either (net fetchViaSyndicationAPI id) (net fetchViaFxtwitterAPI id) in
  if has_media result then result else net fetchViaHTMLScraping id.

(** An upstream request that gave no payload. *)
Definition failed {D : Type} (r : reply D) : Prop :=
  match r with
  | Ok _ => False
  | _ => True
  end.

Definition failing_upstream : Upstream :=
  {| syndication_replies := fun _ => [NotOk; NotOk; Throws];
     fxtwitter_reply := fun _ => NotOk;
     page_reply := fun _ => Throws |}.

Definition starts_with_digit (s : string) : Prop :=
  exists c r, s = String c r /\ is_digit c = true.

Definition ends_in_digit (s : string) : Prop :=
  exists p c, s = p ++ String c EmptyString /\ is_digit c = true.

(** The network in which only source B has something: one photo. *)
Definition only_B : network :=
  outcomes None (fxtwitter_outcome fixed_host (Ok (Some payload_B_photo)))
           None.

(** A video whose variants are neither in order nor distinct: two areas
    come twice, and one label does not parse. *)
Definition sample_ties : MediaItem.t :=
  video_of (map labelled ["640x360"; "unknown"; "1280x720"; "360x640";
                          "1280x720"; "854x480"]).

(** A payload of source A with two photos, a video and a gif. *)
Definition payload_A_mixed : SynData.t :=
  SynData.make None None None
    (Some [SynPhoto.make (Some "https://pbs.twimg.com/media/a.jpg")
                         (Some 1200) (Some 800);
           SynPhoto.make (Some "https://pbs.twimg.com/media/b.jpg")
                         (Some 800) (Some 1200)])
    (Some sample_video)
    (Some (SynVideo.make None None (Some 480) (Some 270)
             (Some [SynVariant.make (Some "video/mp4")
                      (Some "https://video.twimg.com/tweet_video/g.mp4")
                      None None]))).

(** Whether the host's [Date] renders the timestamp of a result through
    the two conversions the handler makes of it: of a number of seconds to
    ISO text, and of the text again in the download summary. *)
Definition renders (host : Host) (created_at : timestamp) : bool :=
  match created_at with
  | TsText s =>
      match date_iso host (TsText s) with
      | Some _ => true
      | None => false
      end
  | TsNumber n =>
      match iso_of_millis host (n * 1000) with
      | Some iso =>
          match date_iso host (TsText iso) with
          | Some _ => true
          | None => false
          end
      | None => false
      end
  end.

(** A host whose [Date] rejects what is no date: a number of milliseconds
    beyond 8.64e15 either way, and a text that does not start with a
    digit. *)
Definition strict_host : Host :=
  {| now := "2025-12-29T00:00:00.000Z";
     iso_of_millis := fun n =>
       if Z.abs n <=? 8640000000000000
       then Some "2025-12-29T00:00:00.000Z"
       else None;
     iso_of_text := fun s =>
       match s with
       | String c _ => if is_digit c then Some s else None
       | EmptyString => None
       end |}.

(** Source B alone has a photo, under a timestamp in seconds. *)
Definition only_B_at (seconds : Z) : network :=
  outcomes None
    (fxtwitter_outcome strict_host
       (Ok (Some (FxTweet.make None None (Some seconds)
                    (Some (Some [FxMedia.make "photo"
                                   (Some "https://pbs.twimg.com/media/b.jpg")
                                   None None (Some 1200) (Some 800)]))))))
    None.

End Spec.

(** ** Properties of the stable sort *)

Module SortFacts.
Import JS.

Section ByKey.
Context {A : Type} (key : A -> Z) (cmp : A -> A -> Z).
Hypothesis cmp_key : forall a b, cmp a b = key b - key a.

(** Non-increasing keys. *)
Definition descending (a b : A) : Prop := key b <= key a.

Lemma insert_In (x y : A) (l : list A) :
  In y (insert cmp x l) <-> y = x \/ In y l.
Proof.
  induction l as [|z l IH]; simpl.
  - intuition.
  - destruct (0 <? cmp x z); simpl; rewrite ?IH; intuition.
Qed.

Lemma insert_perm (x : A) (l : list A) :
  Permutation (x :: l) (insert cmp x l).
Proof.
  induction l as [|z l IH]; simpl.
  - apply Permutation_refl.
  - destruct (0 <? cmp x z).
    + eapply Permutation_trans; [apply perm_swap|].
      now apply perm_skip.
    + apply Permutation_refl.
Qed.

Lemma sort_perm (l : list A) : Permutation l (sort cmp l).
Proof.
  induction l as [|x l IH]; simpl.
  - constructor.
  - eapply Permutation_trans; [apply perm_skip, IH|apply insert_perm].
Qed.

Lemma sort_length (l : list A) : length (sort cmp l) = length l.
Proof. symmetry. apply Permutation_length, sort_perm. Qed.

Lemma insert_sorted (x : A) (l : list A) :
  StronglySorted descending l -> StronglySorted descending (insert cmp x l).
Proof.
  induction 1 as [|z l Hl IH Hz]; simpl.
  - repeat constructor.
  - destruct (0 <? cmp x z) eqn:E.
    + constructor; [exact IH|].
      rewrite Forall_forall in *. intros y Hy.
      apply insert_In in Hy. destruct Hy as [->|Hy]; [|now apply Hz].
      apply Z.ltb_lt in E. rewrite cmp_key in E. unfold descending. lia.
    + apply Z.ltb_ge in E. rewrite cmp_key in E.
      constructor; [now constructor|].
      constructor; [unfold descending; lia|].
      rewrite Forall_forall in *. intros y Hy.
      specialize (Hz y Hy). unfold descending in *. lia.
Qed.

Lemma sort_sorted (l : list A) : StronglySorted descending (sort cmp l).
Proof.
  induction l as [|x l IH]; simpl.
  - constructor.
  - now apply insert_sorted.
Qed.

(** Stability: the elements of any one key keep their order. *)
Lemma insert_same_key (n : Z) (x : A) (l : list A) :
  filter (fun v => key v =? n) (insert cmp x l)
  = filter (fun v => key v =? n) (x :: l).
Proof.
  induction l as [|z l IH]; simpl; [reflexivity|].
  destruct (0 <? cmp x z) eqn:E; [|reflexivity].
  apply Z.ltb_lt in E. rewrite cmp_key in E.
  simpl. rewrite IH. simpl.
  destruct (key x =? n) eqn:Ex, (key z =? n) eqn:Ez; try reflexivity.
  apply Z.eqb_eq in Ex, Ez. lia.
Qed.

Lemma sort_same_key (n : Z) (l : list A) :
  filter (fun v => key v =? n) (sort cmp l)
  = filter (fun v => key v =? n) l.
Proof.
  induction l as [|x l IH]; simpl; [reflexivity|].
  rewrite insert_same_key. simpl. now rewrite IH.
Qed.

(** A list already in order is left as it is. *)
Lemma sort_fixed (l : list A) :
  StronglySorted descending l -> sort cmp l = l.
Proof.
  induction 1 as [|x l Hl IH Hx]; simpl; [reflexivity|].
  rewrite IH. destruct l as [|y l]; [reflexivity|].
  simpl. inversion Hx as [|? ? Hxy _]; subst.
  unfold descending in Hxy. rewrite cmp_key.
  destruct (0 <? key y - key x) eqn:E; [|reflexivity].
  apply Z.ltb_lt in E. lia.
Qed.

Lemma sort_idempotent (l : list A) : sort cmp (sort cmp l) = sort cmp l.
Proof. apply sort_fixed, sort_sorted. Qed.

Lemma sort_nonempty (l : list A) : l <> [] -> sort cmp l <> [].
Proof.
  intros Hl Hs. apply Hl. apply length_zero_iff_nil.
  rewrite <- sort_length, Hs. reflexivity.
Qed.
End ByKey.

End SortFacts.

(** ** Properties of insertion-ordered sets *)

Module SetFacts.
Import JS Spec.

Lemma set_add_app (x : string) (seen : list string) :
  set_add x seen
  = if existsb (String.eqb x) seen then seen else (seen ++ [x])%list.
Proof.
  induction seen as [|y seen IH]; simpl; [reflexivity|].
  destruct (String.eqb x y); simpl; [reflexivity|].
  rewrite IH. now destruct (existsb (String.eqb x) seen).
Qed.

Lemma filter_remove (P : string -> bool) (x : string) (d : list string) :
  P x = false -> filter P (remove string_dec x d) = filter P d.
Proof.
  intros Hx. induction d as [|y d IH]; simpl; [reflexivity|].
  destruct (string_dec x y) as [<-|Hxy]; simpl.
  - now rewrite Hx.
  - now rewrite IH.
Qed.

Lemma filter_unseen_snoc (x : string) (seen d : list string) :
  filter (fun y => negb (existsb (String.eqb y) (seen ++ [x])%list)) d
  = filter (fun y => negb (existsb (String.eqb y) seen))
           (remove string_dec x d).
Proof.
  induction d as [|y d IH]; simpl; [reflexivity|].
  rewrite existsb_app. simpl. rewrite orb_false_r.
  destruct (string_dec x y) as [<-|Hxy].
  - rewrite String.eqb_refl, orb_true_r. simpl. exact IH.
  - assert (E : String.eqb y x = false)
      by (apply String.eqb_neq; congruence).
    rewrite E, orb_false_r. simpl.
    destruct (existsb (String.eqb y) seen); simpl; now rewrite IH.
Qed.

Lemma fold_set_add (l seen : list string) :
  fold_left (fun s x => set_add x s) l seen
  = (seen ++ filter (fun y => negb (existsb (String.eqb y) seen))
                    (distinct l))%list.
Proof.
  revert seen. induction l as [|x l IH]; intros seen; simpl.
  - now rewrite app_nil_r.
  - rewrite IH, set_add_app.
    destruct (existsb (String.eqb x) seen) eqn:E; simpl.
    + now rewrite filter_remove by (now rewrite E).
    + rewrite <- app_assoc. simpl. now rewrite filter_unseen_snoc.
Qed.

(** The insertion loop of a [Set] keeps each value where it first occurs. *)
Lemma new_Set_distinct (l : list string) : new_Set l = distinct l.
Proof.
  unfold new_Set. rewrite fold_set_add. simpl.
  induction (distinct l) as [|y d IH]; simpl; [reflexivity|].
  now rewrite IH.
Qed.

Lemma remove_NoDup (x : string) (l : list string) :
  NoDup l -> NoDup (remove string_dec x l).
Proof.
  induction 1 as [|y l Hy Hl IH]; simpl; [constructor|].
  destruct (string_dec x y); [exact IH|].
  constructor; [|exact IH].
  intros Hin. apply in_remove in Hin. now apply Hy.
Qed.

Lemma distinct_NoDup (l : list string) : NoDup (distinct l).
Proof.
  induction l as [|x l IH]; simpl; constructor.
  - apply remove_In.
  - now apply remove_NoDup.
Qed.

Lemma distinct_In (x : string) (l : list string) :
  In x (distinct l) <-> In x l.
Proof.
  induction l as [|y l IH]; simpl; [tauto|].
  split.
  - intros [->|Hin]; [now left|].
    apply in_remove in Hin. right. now apply IH.
  - intros [->|Hin]; [now left|].
    destruct (string_dec y x) as [->|Hne]; [now left|].
    right. apply in_in_remove; [congruence|now apply IH].
Qed.

End SetFacts.

(** ** The variant ranker *)

Module RankerFacts.
Import JS Twitter Spec SortFacts.

Lemma by_pixels_key (a b : Variant.t) : by_pixels a b = pixels b - pixels a.
Proof. reflexivity. Qed.

Lemma raw_variants_nonempty (item : MediaItem.t) : raw_variants item <> [].
Proof. unfold raw_variants. destruct (MediaItem.variants item); discriminate. Qed.

Lemma kind_eq_photo (item : MediaItem.t) :
  MediaItem.type item = photo \/ MediaItem.type item <> photo.
Proof. destruct (MediaItem.type item); auto; right; discriminate. Qed.

(** What the ranker makes of a video or gif item. *)
Lemma enhance_ranked (item : MediaItem.t) :
  MediaItem.type item <> photo ->
  exists first rest,
    sort by_pixels (raw_variants item) = first :: rest /\
    enhance item =
      MediaItem.make (MediaItem.type item)
        (Variant.url first) (Variant.url first)
        (MediaItem.thumbnail_url item) (MediaItem.duration item)
        (MediaItem.width item) (MediaItem.height item)
        (MediaItem.size item) (first :: rest)
        (Some (Variant.quality first))
        (Some (new_Set (filter known
                          (map Variant.quality (first :: rest)))))
        (Some (new_Set (filter known
                          (map Variant.resolution (first :: rest))))).
Proof.
  intros Hty.
  destruct (sort by_pixels (raw_variants item)) as [|first rest] eqn:E.
  - exfalso. revert E.
    apply sort_nonempty, raw_variants_nonempty.
  - exists first, rest. split; [reflexivity|].
    unfold enhance, raw_variants in *.
    destruct item as [ty u d th du w h sz vs bq aq ar]; simpl in *.
    destruct ty; [congruence| |];
      (destruct vs as [|v vs];
       [ unfold with_variants; cbn [MediaItem.variants MediaItem.type
           MediaItem.thumbnail_url MediaItem.duration MediaItem.width
           MediaItem.height MediaItem.size] in *;
         rewrite E; reflexivity
       | unfold with_variants; cbn [MediaItem.variants MediaItem.type
           MediaItem.thumbnail_url MediaItem.duration MediaItem.width
           MediaItem.height MediaItem.size] in *;
         rewrite E; reflexivity ]).
Qed.

Lemma enhance_type (item : MediaItem.t) :
  MediaItem.type (enhance item) = MediaItem.type item.
Proof.
  destruct (MediaItem.type item) eqn:Hty.
  - unfold enhance. now rewrite Hty.
  - destruct (enhance_ranked item) as (f & r & _ & ->); [congruence|].
    exact Hty.
  - destruct (enhance_ranked item) as (f & r & _ & ->); [congruence|].
    exact Hty.
Qed.

Lemma enhance_variants (item : MediaItem.t) :
  MediaItem.type item <> photo ->
  MediaItem.variants (enhance item) = sort by_pixels (raw_variants item).
Proof.
  intros Hty. destruct (enhance_ranked item Hty) as (f & r & E & ->).
  now rewrite E.
Qed.

Lemma enhance_photo (item : MediaItem.t) :
  MediaItem.type item = photo -> enhance item = item.
Proof. intros Hty. unfold enhance. now rewrite Hty. Qed.

(** C2: the ranking step is idempotent: ranking an item that has been
    ranked changes nothing, neither the order of its variants nor its
    locators, best quality, available qualities and resolutions; and so
    for a whole media list. *)
Theorem ranking_idempotent :
  (forall item : MediaItem.t, enhance (enhance item) = enhance item) /\
  (forall (mediaItems : list MediaItem.t) (tweetId : string),
     enhanceMediaWithResolutions
       (enhanceMediaWithResolutions mediaItems tweetId) tweetId
     = enhanceMediaWithResolutions mediaItems tweetId).
Proof.
  assert (H : forall item, enhance (enhance item) = enhance item).
  { intros item.
    destruct (kind_eq_photo item) as [Hp|Hty].
    - now rewrite !(enhance_photo item Hp).
    - destruct (enhance_ranked item Hty) as (f & r & E & Hi).
      assert (Hty' : MediaItem.type (enhance item) <> photo)
        by now rewrite enhance_type.
      destruct (enhance_ranked _ Hty') as (f' & r' & E' & Hi').
      rewrite Hi'. rewrite Hi in E' |- *.
      unfold raw_variants in E'. cbn [MediaItem.variants] in E'.
      rewrite <- E in E'.
      rewrite (sort_idempotent pixels by_pixels by_pixels_key) in E'.
      rewrite E in E'. injection E' as <- <-. reflexivity. }
  split; [exact H|].
  intros mediaItems tweetId. unfold enhanceMediaWithResolutions.
  rewrite map_map. apply map_ext. intros item. apply H.
Qed.

(** C3: ranking a video or gif sorts its variants by non-increasing
    pixel area and is stable: the ranked variants are the variants the
    item had (the one made up for an item without any), rearranged, and
    the variants of any one area keep their relative order; the
    resolutions 640x360, 1920x1080, 854x480 rank to 1920x1080, 854x480,
    640x360. *)
Theorem ranking_sorted_stable (item : MediaItem.t) :
  MediaItem.type item <> photo ->
  StronglySorted (descending pixels) (MediaItem.variants (enhance item)) /\
  Permutation (raw_variants item) (MediaItem.variants (enhance item)) /\
  (forall area : Z,
     filter (fun v => pixels v =? area) (MediaItem.variants (enhance item))
     = filter (fun v => pixels v =? area) (raw_variants item)) /\
  (MediaItem.variants item <> [] ->
     raw_variants item = MediaItem.variants item) /\
  map Variant.resolution
      (MediaItem.variants
         (enhance (video_of (map labelled
                               ["640x360"; "1920x1080"; "854x480"]))))
  = ["1920x1080"; "854x480"; "640x360"].
Proof.
  intros Hty. rewrite (enhance_variants item Hty).
  split; [apply sort_sorted, by_pixels_key|].
  split; [apply sort_perm|].
  split; [intros area; apply sort_same_key, by_pixels_key|].
  split; [|reflexivity].
  unfold raw_variants. destruct (MediaItem.variants item); congruence.
Qed.

(** An instance: six variants, two areas twice and one label that does
    not parse. *)
Lemma ranking_sorted_stable_witness :
  map Variant.resolution (MediaItem.variants (enhance sample_ties))
  = ["1280x720"; "1280x720"; "854x480"; "640x360"; "360x640"; "unknown"] /\
  StronglySorted (descending pixels)
                 (MediaItem.variants (enhance sample_ties)) /\
  map Variant.resolution
      (filter (fun v => pixels v =? 230400)
              (MediaItem.variants (enhance sample_ties)))
  = ["640x360"; "360x640"].
Proof.
  assert (Hty : MediaItem.type sample_ties <> photo) by discriminate.
  destruct (ranking_sorted_stable sample_ties Hty) as (Hs & _ & Hf & _).
  split; [reflexivity|]. split; [exact Hs|].
  rewrite (Hf 230400). reflexivity.
Defined.

(** Equal areas keep the order of the input. *)
Example ranking_keeps_ties :
  map Variant.resolution
      (sort by_pixels (map labelled ["640x360"; "360x640"; "1280x720";
                                     "unknown"; "720x1280"; "0x0"]))
  = ["1280x720"; "720x1280"; "640x360"; "360x640"; "unknown"; "0x0"].
Proof. reflexivity. Qed.

Lemma getQualityFromResolution_nonempty (resolution : option string) :
  getQualityFromResolution resolution <> EmptyString.
Proof.
  unfold getQualityFromResolution.
  destruct resolution as [s|]; [|discriminate].
  repeat match goal with
         | |- context [if ?b then _ else _] => destruct b
         end; discriminate.
Qed.

Lemma or_default_nonempty (a : option string) (d : string) :
  d <> EmptyString -> or_default a d <> EmptyString.
Proof.
  intros Hd. unfold or_default.
  destruct a as [[|c t]|]; simpl; try exact Hd. discriminate.
Qed.

Lemma known_not_unknown (l : list string) :
  Forall (fun q => q <> EmptyString) l ->
  filter known l = filter not_unknown l.
Proof.
  induction 1 as [|q l Hq Hl IH]; simpl; [reflexivity|].
  rewrite IH. unfold known, not_unknown.
  destruct q as [|c t]; [congruence|reflexivity].
Qed.

Lemma not_unknown_excluded (l : list string) :
  ~ In "unknown" (distinct (filter not_unknown l)).
Proof.
  intros Hin. apply SetFacts.distinct_In, filter_In in Hin.
  destruct Hin as [_ Hin]. discriminate Hin.
Qed.

Lemma raw_variants_labels (item : MediaItem.t) :
  extractor_item item ->
  Forall (fun v => Variant.quality v <> EmptyString /\
                   Variant.resolution v <> EmptyString)
         (raw_variants item).
Proof.
  intros [_ Hvs]. unfold raw_variants.
  destruct (MediaItem.variants item) as [|v vs]; [|exact Hvs].
  constructor; [|constructor]. unfold fallback_variant.
  cbn [Variant.quality Variant.resolution]. split.
  - apply getQualityFromResolution_nonempty.
  - apply or_default_nonempty. discriminate.
Qed.

Lemma available_lists_of_ranked
  (item : MediaItem.t) (qualities resolutions : list string) :
  extractor_item item ->
  MediaItem.available_qualities (enhance item) = Some qualities ->
  MediaItem.available_resolutions (enhance item) = Some resolutions ->
  MediaItem.type item <> photo /\
  NoDup qualities /\ NoDup resolutions /\
  ~ In "unknown" qualities /\ ~ In "unknown" resolutions /\
  qualities
  = distinct (filter not_unknown
                (map Variant.quality (MediaItem.variants (enhance item)))) /\
  resolutions
  = distinct (filter not_unknown
                (map Variant.resolution
                     (MediaItem.variants (enhance item)))).
Proof.
  intros Hwf Hq Hr.
  destruct (kind_eq_photo item) as [Hp|Hty].
  - rewrite (enhance_photo item Hp) in Hq.
    destruct Hwf as [Hphoto _]. destruct (Hphoto Hp) as (_ & Hnone & _).
    congruence.
  - pose proof (raw_variants_labels item Hwf) as Hlab.
    pose proof (enhance_variants item Hty) as Hvs.
    destruct (enhance_ranked item Hty) as (f & r & E & Hi).
    rewrite Hvs, E. rewrite Hi in Hq, Hr.
    cbn [MediaItem.available_qualities MediaItem.available_resolutions]
      in Hq, Hr.
    assert (Hsorted : Forall (fun v => Variant.quality v <> EmptyString /\
                                       Variant.resolution v <> EmptyString)
                             (f :: r)).
    { rewrite <- E. rewrite Forall_forall in *. intros v Hv.
      apply Hlab. eapply Permutation_in; [|exact Hv].
      apply Permutation_sym, sort_perm. }
    assert (Eq : qualities
                 = distinct (filter not_unknown
                               (map Variant.quality (f :: r)))).
    { rewrite SetFacts.new_Set_distinct, known_not_unknown in Hq;
        [congruence|].
      rewrite Forall_forall in *. intros q Hin.
      apply in_map_iff in Hin. destruct Hin as (v & <- & Hv).
      now apply Hsorted. }
    assert (Er : resolutions
                 = distinct (filter not_unknown
                               (map Variant.resolution (f :: r)))).
    { rewrite SetFacts.new_Set_distinct, known_not_unknown in Hr;
        [congruence|].
      rewrite Forall_forall in *. intros q Hin.
      apply in_map_iff in Hin. destruct Hin as (v & <- & Hv).
      now apply Hsorted. }
    split; [exact Hty|]. repeat split; try assumption.
    + rewrite Eq. apply SetFacts.distinct_NoDup.
    + rewrite Er. apply SetFacts.distinct_NoDup.
    + rewrite Eq. apply not_unknown_excluded.
    + rewrite Er. apply not_unknown_excluded.
Qed.

Lemma labels_of_ranked (label : Variant.t -> string)
  (item : MediaItem.t) (x : string) :
  In x (distinct (filter not_unknown
                    (map label (sort by_pixels (raw_variants item)))))
  <-> x <> "unknown" /\
      exists v, In v (raw_variants item) /\ label v = x.
Proof.
  rewrite SetFacts.distinct_In, filter_In, in_map_iff.
  unfold not_unknown. rewrite negb_true_iff.
  split.
  - intros [(v & <- & Hv) Hx]. split.
    + intros E. rewrite E in Hx. discriminate Hx.
    + exists v. split; [|reflexivity].
      eapply Permutation_in; [apply Permutation_sym, sort_perm|exact Hv].
  - intros [Hx (v & Hv & <-)]. split.
    + exists v. split; [reflexivity|].
      eapply Permutation_in; [apply sort_perm|exact Hv].
    + now apply String.eqb_neq.
Qed.

(** C7: after ranking, an item's available qualities and available
    resolutions have no duplicates and never contain "unknown"; the
    ranked variants are the variants the item had, sorted, and the two
    lists are the distinct values other than "unknown" of the ranked
    variants, in the order in which they are first seen there: a label is
    listed exactly when it is not "unknown" and a variant of the item
    carries it. *)
Theorem available_lists_distinct
  (item : MediaItem.t) (qualities resolutions : list string) :
  extractor_item item ->
  MediaItem.available_qualities (enhance item) = Some qualities ->
  MediaItem.available_resolutions (enhance item) = Some resolutions ->
  NoDup qualities /\ NoDup resolutions /\
  ~ In "unknown" qualities /\ ~ In "unknown" resolutions /\
  qualities
  = distinct (filter not_unknown
                (map Variant.quality (MediaItem.variants (enhance item)))) /\
  resolutions
  = distinct (filter not_unknown
                (map Variant.resolution
                     (MediaItem.variants (enhance item)))) /\
  MediaItem.variants (enhance item) = sort by_pixels (raw_variants item) /\
  (forall q, In q qualities <->
     q <> "unknown" /\
     exists v, In v (raw_variants item) /\ Variant.quality v = q) /\
  (forall r, In r resolutions <->
     r <> "unknown" /\
     exists v, In v (raw_variants item) /\ Variant.resolution v = r).
Proof.
  intros Hwf Hq Hr.
  destruct (available_lists_of_ranked item qualities resolutions Hwf Hq Hr)
    as (Hty & H1 & H2 & H3 & H4 & Eq & Er).
  pose proof (enhance_variants item Hty) as Hvs.
  repeat (split; [assumption|]).
  split; [intros q|intros r].
  - rewrite Eq, Hvs. apply labels_of_ranked.
  - rewrite Er, Hvs. apply labels_of_ranked.
Qed.

(** The extractors keep their word: every item of a result built by
    source A or by source B is an [extractor_item]. *)
Lemma size_nonempty (w h : option Z) :
  render w ++ "x" ++ render h <> EmptyString.
Proof. destruct (render w); discriminate. Qed.

Lemma sort_Forall {A : Type} (P : A -> Prop) (cmp : A -> A -> Z)
  (l : list A) :
  Forall P l -> Forall P (sort cmp l).
Proof.
  rewrite !Forall_forall. intros H x Hx. apply H.
  eapply Permutation_in; [apply Permutation_sym, sort_perm|exact Hx].
Qed.

Lemma variants_A_labels (size : string) (vs : list SynVariant.t) :
  size <> EmptyString ->
  Forall (fun v => Variant.quality v <> EmptyString /\
                   Variant.resolution v <> EmptyString)
         (sort by_pixels (map (variant_A size) vs)).
Proof.
  intros Hsize. apply sort_Forall. rewrite Forall_forall.
  intros v Hv. apply in_map_iff in Hv. destruct Hv as (x & <- & _).
  unfold variant_A. cbn [Variant.quality Variant.resolution]. split.
  - apply getQualityFromResolution_nonempty.
  - now apply or_default_nonempty.
Qed.

Lemma photo_item_A_extractor_item (entry : SynPhoto.t) :
  extractor_item (photo_item_A entry).
Proof.
  unfold extractor_item, photo_item_A.
  cbn [MediaItem.type MediaItem.variants MediaItem.best_quality
       MediaItem.available_qualities MediaItem.available_resolutions].
  split; [auto|].
  constructor; [|constructor].
  cbn [Variant.quality Variant.resolution].
  split; [discriminate|apply size_nonempty].
Qed.

Lemma video_item_A_extractor_item (v : SynVideo.t) :
  extractor_item (video_item_A v).
Proof.
  unfold extractor_item, video_item_A.
  destruct (SynVideo.variants v) as [vs|].
  - pose proof (variants_A_labels
                  (render (SynVideo.width v) ++ "x"
                   ++ render (SynVideo.height v))
                  (filter (fun x => is_mp4 x && truthy (SynVariant.src x))
                          vs)
                  (size_nonempty _ _)) as H.
    destruct (sort by_pixels _) as [|first rest];
      cbn [MediaItem.type MediaItem.variants];
      (split; [discriminate|assumption]).
  - cbn [MediaItem.type MediaItem.variants].
    split; [discriminate|constructor].
Qed.

Lemma gif_item_A_extractor_item (g : SynVideo.t) :
  extractor_item (gif_item_A g).
Proof.
  unfold extractor_item, gif_item_A.
  destruct (SynVideo.variants g) as [vs|].
  - pose proof (variants_A_labels
                  (render (SynVideo.width g) ++ "x"
                   ++ render (SynVideo.height g))
                  (filter is_mp4 vs) (size_nonempty _ _)) as H.
    destruct (sort by_pixels _) as [|first rest];
      cbn [MediaItem.type MediaItem.variants];
      (split; [discriminate|assumption]).
  - cbn [MediaItem.type MediaItem.variants].
    split; [discriminate|constructor].
Qed.

Lemma item_B_extractor_item (media : FxMedia.t) (item : MediaItem.t) :
  item_B media = Some item -> extractor_item item.
Proof.
  unfold item_B.
  repeat match goal with
         | |- context [if ?b then _ else _] => destruct b
         end; intros [= <-];
    unfold extractor_item, photo_item_B, video_item_B;
    cbn [MediaItem.type MediaItem.variants MediaItem.best_quality
         MediaItem.available_qualities MediaItem.available_resolutions];
    (split; [auto; discriminate|]);
    (constructor; [|constructor]);
    cbn [Variant.quality Variant.resolution];
    (split; [|apply size_nonempty]);
    try discriminate; apply getQualityFromResolution_nonempty.
Qed.

Lemma syndication_items (host : Host) (data : SynData.t) (r : Result.t) :
  syndication_result host data = Some r ->
  Forall extractor_item (Result.media r).
Proof.
  unfold syndication_result. intros H.
  assert (Hm : Forall extractor_item
                 ((match SynData.photos data with
                   | Some ps => map photo_item_A ps
                   | None => []
                   end
                   ++ match SynData.video data with
                      | Some v => [video_item_A v]
                      | None => []
                      end
                   ++ match SynData.animated_gif data with
                      | Some g => [gif_item_A g]
                      | None => []
                      end)%list)).
  { rewrite !Forall_app. repeat split.
    - destruct (SynData.photos data) as [ps|]; [|constructor].
      rewrite Forall_forall. intros i Hi. apply in_map_iff in Hi.
      destruct Hi as (e & <- & _). apply photo_item_A_extractor_item.
    - destruct (SynData.video data); constructor;
        [apply video_item_A_extractor_item|constructor].
    - destruct (SynData.animated_gif data); constructor;
        [apply gif_item_A_extractor_item|constructor]. }
  destruct (SynData.photos data), (SynData.video data),
    (SynData.animated_gif data);
    try discriminate; injection H as <-; exact Hm.
Qed.

Lemma filter_map_In {A B : Type} (f : A -> option B) (l : list A) (y : B) :
  In y (filter_map f l) -> exists x, In x l /\ f x = Some y.
Proof.
  induction l as [|x l IH]; simpl; [tauto|].
  destruct (f x) as [z|] eqn:E.
  - intros [<-|H]; [eauto|].
    destruct (IH H) as (x' & ? & ?); eauto.
  - intros H. destruct (IH H) as (x' & ? & ?); eauto.
Qed.

Lemma fxtwitter_items (host : Host) (r : reply (option FxTweet.t))
  (result : Result.t) :
  fxtwitter_outcome host r = Some result ->
  Forall extractor_item (Result.media result).
Proof.
  unfold fxtwitter_outcome.
  destruct r as [| |[tweet|]]; try discriminate.
  destruct (FxTweet.media tweet) as [[all|]|]; try discriminate.
  intros [= <-]. cbn [Result.media]. rewrite Forall_forall.
  intros item Hin. apply filter_map_In in Hin.
  destruct Hin as (m & _ & Hm). eapply item_B_extractor_item, Hm.
Qed.

(** An instance: six variants, two areas twice and one label that does
    not parse. *)
Lemma available_lists_distinct_witness :
  MediaItem.available_qualities (enhance sample_ties)
  = Some ["720p"; "480p"; "360p"] /\
  MediaItem.available_resolutions (enhance sample_ties)
  = Some ["1280x720"; "854x480"; "640x360"; "360x640"] /\
  NoDup ["720p"; "480p"; "360p"] /\
  ~ In "unknown" ["1280x720"; "854x480"; "640x360"; "360x640"] /\
  ["720p"; "480p"; "360p"]
  = distinct (filter not_unknown
                (map Variant.quality
                     (MediaItem.variants (enhance sample_ties)))).
Proof.
  assert (Hwf : extractor_item sample_ties).
  { split; [intros H; discriminate H|].
    repeat constructor; vm_compute; discriminate. }
  destruct (available_lists_distinct sample_ties
              ["720p"; "480p"; "360p"]
              ["1280x720"; "854x480"; "640x360"; "360x640"]
              Hwf eq_refl eq_refl)
    as (H1 & _ & _ & H4 & H5 & _).
  repeat split; assumption.
Defined.

(** C10: the ranker leaves a photo item exactly as the extractor built
    it, every field alike and no ranking field added, wherever it stands
    in the media list; an item the ranker changes is a video or a gif. *)
Theorem photo_items_untouched
  (mediaItems : list MediaItem.t) (tweetId : string)
  (i : nat) (item : MediaItem.t) :
  nth_error mediaItems i = Some item ->
  (MediaItem.type item = photo ->
     nth_error (enhanceMediaWithResolutions mediaItems tweetId) i
     = Some item) /\
  (nth_error (enhanceMediaWithResolutions mediaItems tweetId) i
   <> Some item ->
     MediaItem.type item = video \/ MediaItem.type item = gif).
Proof.
  intros Hi. unfold enhanceMediaWithResolutions.
  rewrite nth_error_map, Hi. simpl. split.
  - intros Hp. now rewrite enhance_photo.
  - intros Hne. destruct (MediaItem.type item) eqn:Hty; auto.
    exfalso. apply Hne. now rewrite enhance_photo.
Qed.

(** An instance: a photo of source A behind a video in the media list. *)
Lemma photo_items_untouched_witness :
  nth_error (enhanceMediaWithResolutions [sample_video_A; sample_photo_A]
                                         "1234567890123") 1
  = Some sample_photo_A.
Proof.
  apply (photo_items_untouched [sample_video_A; sample_photo_A]
                               "1234567890123" 1 sample_photo_A eq_refl).
  reflexivity.
Defined.

End RankerFacts.

(** ** The resolution parser and the quality classifier *)

Module ParserFacts.
Import JS Twitter Spec.

Lemma is_sentinel_cases (s : string) :
  is_sentinel s = true -> s = "unknown" \/ s = "undefinedxundefined".
Proof.
  unfold is_sentinel. intros H. apply orb_true_iff in H.
  destruct H as [H|H]; apply String.eqb_eq in H; auto.
Qed.

(** C4: the classifier is a total function of the width and height parsed
    from the label: the seven canonical resolutions have their fixed
    tiers, any other pair takes the first of the descending thresholds
    that its width or its height reaches, and everything else, a label
    that is absent, empty or not numeric included, is "unknown". *)
Theorem classifier_policy :
  (forall resolution : option string,
     getQualityFromResolution resolution
     = tier_policy (parsed_width resolution) (parsed_height resolution)) /\
  map (fun s => getQualityFromResolution (Some s))
      ["480x270"; "640x360"; "854x480"; "1280x720"; "1920x1080";
       "2560x1440"; "3840x2160"]
  = ["480p"; "360p"; "480p"; "720p"; "1080p"; "1440p"; "4K"] /\
  getQualityFromResolution (Some "1920x1080") = "1080p" /\
  getQualityFromResolution (Some "9999x9999") = "4K" /\
  getQualityFromResolution (Some "unknown") = "unknown" /\
  getQualityFromResolution (Some EmptyString) = "unknown".
Proof.
  split; [|repeat split; reflexivity].
  intros [s|]; [|reflexivity].
  unfold getQualityFromResolution, parsed_width, parsed_height.
  destruct s as [|c s]; [reflexivity|].
  cbn [truthy negb orb].
  destruct (is_sentinel (String c s)) eqn:Es.
  - apply is_sentinel_cases in Es. destruct Es as [-> | ->]; reflexivity.
  - generalize (map Number (split_x (String c s))) as parts.
    intros parts.
    destruct (nth_error parts 0) as [[|w]|];
      destruct (nth_error parts 1) as [[|h]|];
      try reflexivity.
    unfold tier_policy, first_tier, canonical, thresholds.
    cbn [isNaN orb to_num num_eqb num_geb find fst snd option_map].
    repeat match goal with
           | |- context [if ?b then _ else _] => destruct b
           end; reflexivity.
Qed.

(** Two labels with the same parsed resolution and different tiers: the
    classifier reads the pieces of the label itself, where a missing
    height is NaN, not the zero that [parseResolution] puts in its place. *)
Remark classifier_reads_the_label :
  parseResolution (Some "1920") = parseResolution (Some "1920x0") /\
  getQualityFromResolution (Some "1920") = "unknown" /\
  getQualityFromResolution (Some "1920x0") = "1080p".
Proof. repeat split; reflexivity. Qed.

(** C6, as the specification states it, fails: a label with a single
    numeric piece does not split into two numeric components, and its
    width is kept. *)
Lemma parseResolution_keeps_single_component :
  ~ two_numeric_components "1920" /\
  parseResolution (Some "1920") = Resolution.make 1920 0 /\
  parseResolution (Some "1920") <> Resolution.make 0 0.
Proof.
  split; [|split; [reflexivity|discriminate]].
  intros (a & b & H & _). discriminate H.
Qed.

(** C6, amended: the parser is total; it returns 0 by 0 for an absent
    label and for "unknown"; each component degrades on its own: the
    width is 0 when the first piece of the label is not numeric, the
    height is 0 when the second piece is missing or not numeric, and a
    numeric piece is kept as the width or the height; so the pixel area
    is 0 whenever one of the first two pieces is missing or not
    numeric. *)
Theorem parseResolution_degrades (resolution : option string) :
  (resolution = None \/ resolution = Some "unknown" ->
     parseResolution resolution = Resolution.make 0 0) /\
  (parsed_width resolution = NaN ->
     Resolution.width (parseResolution resolution) = 0) /\
  (parsed_height resolution = NaN ->
     Resolution.height (parseResolution resolution) = 0) /\
  (parsed_width resolution = NaN \/ parsed_height resolution = NaN ->
     Resolution.width (parseResolution resolution)
     * Resolution.height (parseResolution resolution) = 0) /\
  (forall w : Z,
     parsed_width resolution = Num w ->
     Resolution.width (parseResolution resolution) = w) /\
  (forall h : Z,
     parsed_height resolution = Num h ->
     Resolution.height (parseResolution resolution) = h).
Proof.
  assert (Hw : parsed_width resolution = NaN ->
               Resolution.width (parseResolution resolution) = 0).
  { destruct resolution as [s|]; [|reflexivity].
    unfold parsed_width, parseResolution.
    destruct (negb (truthy (Some s)) || is_sentinel s); [reflexivity|].
    cbn [Resolution.width].
    destruct (nth_error (map Number (split_x s)) 0) as [[|w]|];
      simpl; congruence. }
  assert (Hh : parsed_height resolution = NaN ->
               Resolution.height (parseResolution resolution) = 0).
  { destruct resolution as [s|]; [|reflexivity].
    unfold parsed_height, parseResolution.
    destruct (negb (truthy (Some s)) || is_sentinel s); [reflexivity|].
    cbn [Resolution.height].
    destruct (nth_error (map Number (split_x s)) 1) as [[|h]|];
      simpl; congruence. }
  repeat split.
  - intros [-> | ->]; reflexivity.
  - exact Hw.
  - exact Hh.
  - intros [H|H]; [rewrite (Hw H)|rewrite (Hh H)]; lia.
  - intros w. destruct resolution as [s|]; [|discriminate].
    destruct s as [|c s]; [intros [= <-]; reflexivity|].
    unfold parsed_width, parseResolution. cbn [truthy negb orb].
    destruct (is_sentinel (String c s)) eqn:Es.
    + apply is_sentinel_cases in Es. destruct Es as [-> | ->];
        discriminate.
    + cbn [Resolution.width].
      destruct (nth_error (map Number (split_x (String c s))) 0)
        as [[|w']|]; simpl; congruence.
  - intros h. destruct resolution as [s|]; [|discriminate].
    destruct s as [|c s]; [discriminate|].
    unfold parsed_height, parseResolution. cbn [truthy negb orb].
    destruct (is_sentinel (String c s)) eqn:Es.
    + apply is_sentinel_cases in Es. destruct Es as [-> | ->];
        discriminate.
    + cbn [Resolution.height].
      destruct (nth_error (map Number (split_x (String c s))) 1)
        as [[|h']|]; simpl; congruence.
Qed.

(** An instance: a label without a height keeps its width. *)
Lemma parseResolution_degrades_witness :
  Resolution.width (parseResolution (Some "1920")) = 1920 /\
  Resolution.height (parseResolution (Some "1920")) = 0 /\
  Resolution.width (parseResolution (Some "1920"))
  * Resolution.height (parseResolution (Some "1920")) = 0.
Proof.
  destruct (parseResolution_degrades (Some "1920"))
    as (_ & _ & Hh & Harea & Hkeep & _).
  split; [|split].
  - apply Hkeep. reflexivity.
  - apply Hh. reflexivity.
  - apply Harea. right. reflexivity.
Defined.

End ParserFacts.

(** ** The request handler *)

Module HandlerFacts.
Import JS Twitter Spec SortFacts RankerFacts.

Lemma take_digits_split (s d rest : string) :
  take_digits s = (d, rest) -> s = d ++ rest /\ all_digits d = true.
Proof.
  revert d rest. induction s as [|c s IH]; intros d rest; simpl.
  - intros [= <- <-]. split; reflexivity.
  - destruct (is_digit c) eqn:Ec.
    + destruct (take_digits s) as [d' rest'].
      intros [= <- <-]. destruct (IH _ _ eq_refl) as [-> Hd].
      split; [reflexivity|]. simpl. now rewrite Ec.
    + intros [= <- <-]. split; reflexivity.
Qed.

Lemma take_digits_run (run after : string) :
  all_digits run = true ->
  (String.length run <= String.length (fst (take_digits (run ++ after))))%nat.
Proof.
  induction run as [|c run IH]; simpl; intros H; [lia|].
  apply andb_true_iff in H. destruct H as [Hc Hrun]. rewrite Hc.
  specialize (IH Hrun). destruct (take_digits (run ++ after)). simpl in *.
  lia.
Qed.

Lemma extractStatusIdFromUrl_unfold (s : string) :
  extractStatusIdFromUrl s
  = match match_status_id s with
    | Some d => Some d
    | None =>
        match s with
        | EmptyString => None
        | String _ r => extractStatusIdFromUrl r
        end
    end.
Proof. destruct s; reflexivity. Qed.

(** The identifier found is a run of at least ten digits of the input. *)
Lemma extractStatusIdFromUrl_sound (s d : string) :
  extractStatusIdFromUrl s = Some d ->
  exists before after,
    s = before ++ d ++ after /\
    (10 <= String.length d)%nat /\ all_digits d = true.
Proof.
  assert (Hm : forall t, match_status_id t = Some d ->
                 exists after, t = d ++ after /\
                   (10 <= String.length d)%nat /\ all_digits d = true).
  { intros t. unfold match_status_id.
    destruct (take_digits t) as [d' rest] eqn:E.
    destruct (10 <=? String.length d')%nat eqn:L; [|discriminate].
    intros [= ->]. apply Nat.leb_le in L.
    destruct (take_digits_split _ _ _ E) as [-> Hd]. eauto. }
  induction s as [|c s IH].
  - simpl. discriminate.
  - intros H. rewrite extractStatusIdFromUrl_unfold in H.
    destruct (match_status_id (String c s)) as [d'|] eqn:E.
    + injection H as ->. destruct (Hm _ E) as (after & Hs & Hl & Hd).
      exists EmptyString, after. auto.
    + destruct (IH H) as (before & after & -> & Hl & Hd).
      exists (String c before), after. auto.
Qed.

(** A run of at least ten digits is always found. *)
Lemma extractStatusIdFromUrl_complete (s : string) :
  has_digit_run s -> extractStatusIdFromUrl s <> None.
Proof.
  intros (before & run & after & -> & Hl & Hd).
  induction before as [|c before IH].
  - assert (E : match_status_id (run ++ after) <> None).
    { unfold match_status_id.
      pose proof (take_digits_run run after Hd) as Hlen.
      destruct (take_digits (run ++ after)) as [d rest]. simpl in Hlen.
      destruct (10 <=? String.length d)%nat eqn:L; [discriminate|].
      apply Nat.leb_gt in L. lia. }
    cbn [append]. rewrite extractStatusIdFromUrl_unfold.
    destruct (match_status_id (run ++ after)); [discriminate|now elim E].
  - cbn [append]. rewrite extractStatusIdFromUrl_unfold.
    destruct (match_status_id _); [discriminate|exact IH].
Qed.

Lemma no_digit_run_no_id (s : string) :
  ~ has_digit_run s -> extractStatusIdFromUrl s = None.
Proof.
  intros H. destruct (extractStatusIdFromUrl s) as [d|] eqn:E; [|reflexivity].
  exfalso. apply H.
  destruct (extractStatusIdFromUrl_sound _ _ E) as (b & a & Hs & Hl & Hd).
  now exists b, d, a.
Qed.

Lemma status_id_truthy (s d : string) :
  extractStatusIdFromUrl s = Some d -> truthy (Some d) = true.
Proof.
  intros H. destruct (extractStatusIdFromUrl_sound _ _ H) as (_ & _ & _ & Hl & _).
  destruct d; [simpl in Hl; lia|reflexivity].
Qed.

Lemma run_call {R : Type} (net : network) (e : extractor) (id : string)
  (k : option Result.t -> prog R) :
  run net (Call e id k)
  = (fst (run net (k (net e id))), (e, id) :: snd (run net (k (net e id)))).
Proof. simpl. now destruct (run net (k (net e id))). Qed.

(** C8: a reference without a run of ten or more digits is answered with
    status 400, success false and the error "Invalid URL", and the handler
    returns without calling any extractor. *)
Theorem invalid_reference_rejected
  (host : Host) (net : network) (tweetUrl : string) :
  ~ has_digit_run tweetUrl ->
  handleScrapeRequestDirect host tweetUrl
  = Ret (Response.make 400 (corsHeaders (Some "application/json"))
                       (Failure "Invalid URL" None)) /\
  run net (handleScrapeRequestDirect host tweetUrl)
  = (Response.make 400 (corsHeaders (Some "application/json"))
                   (Failure "Invalid URL" None), []) /\
  success (Response.json
             (fst (run net (handleScrapeRequestDirect host tweetUrl))))
  = false.
Proof.
  intros H. apply no_digit_run_no_id in H.
  unfold handleScrapeRequestDirect. rewrite H.
  repeat split; reflexivity.
Qed.

(** An instance: a reference whose longest digit run has five digits. *)
Lemma invalid_reference_rejected_witness :
  run (outcomes None None None)
      (handleScrapeRequestDirect fixed_host "https://x.com/u/status/12345")
  = (Response.make 400 (corsHeaders (Some "application/json"))
                   (Failure "Invalid URL" None), []).
Proof.
  apply (invalid_reference_rejected fixed_host (outcomes None None None)
           "https://x.com/u/status/12345").
  intros H. apply extractStatusIdFromUrl_complete in H.
  apply H. vm_compute. reflexivity.
Defined.

(** C9: when none of the three extractors has media for the identifier,
    the handler answers with status 404, success false, the error
    "Content not available" and the identifier. *)
Theorem unavailable_content
  (host : Host) (net : network) (tweetUrl id : string) :
  extractStatusIdFromUrl tweetUrl = Some id ->
  no_media (net fetchViaSyndicationAPI id) ->
  no_media (net fetchViaFxtwitterAPI id) ->
  no_media (net fetchViaHTMLScraping id) ->
  fst (run net (handleScrapeRequestDirect host tweetUrl))
  = Response.make 404 (corsHeaders (Some "application/json"))
                  (Failure "Content not available" (Some id)) /\
  success (Response.json
             (fst (run net (handleScrapeRequestDirect host tweetUrl))))
  = false.
Proof.
  intros Hid Ha Hb Hc. unfold no_media in *.
  assert (E : fst (run net (handleScrapeRequestDirect host tweetUrl))
              = Response.make 404 (corsHeaders (Some "application/json"))
                  (Failure "Content not available" (Some id))).
  { unfold handleScrapeRequestDirect. rewrite Hid.
    rewrite (status_id_truthy _ _ Hid). cbn [negb].
    rewrite !run_call. cbn [fst].
    assert (Hres : has_media
                     match net fetchViaSyndicationAPI id with
                     | Some _ => net fetchViaSyndicationAPI id
                     | None => net fetchViaFxtwitterAPI id
                     end = false)
      by (destruct (net fetchViaSyndicationAPI id); assumption).
    rewrite Hres. cbn [negb]. rewrite run_call. cbn [fst run].
    unfold respond. rewrite Hc.
    now destruct (net fetchViaHTMLScraping id). }
  rewrite E. split; reflexivity.
Qed.

(** An instance: source A answers with an empty [photos] array and the
    two other sources with nothing. *)
Lemma unavailable_content_witness :
  fst (run (outcomes (syndication_outcome fixed_host
                        [NotOk; Ok payload_A_no_photos])
                     None None)
           (handleScrapeRequestDirect fixed_host sample_url))
  = Response.make 404 (corsHeaders (Some "application/json"))
                  (Failure "Content not available" (Some "1234567890123")).
Proof.
  apply (unavailable_content fixed_host
           (outcomes (syndication_outcome fixed_host
                        [NotOk; Ok payload_A_no_photos])
                     None None)
           sample_url "1234567890123");
    reflexivity.
Defined.

(** The result the handler goes on with: source A when it is not [null]
    and has media, source B when A is [null] and B has media, and what
    source C resolves to otherwise. *)
Lemma handler_selection
  (host : Host) (net : network) (tweetUrl id : string) :
  extractStatusIdFromUrl tweetUrl = Some id ->
  fst (run net (handleScrapeRequestDirect host tweetUrl))
  = respond host tweetUrl id (net fetchViaSyndicationAPI id)
      match net fetchViaSyndicationAPI id with
      | Some _ =>
          if has_media (net fetchViaSyndicationAPI id)
          then net fetchViaSyndicationAPI id
          else net fetchViaHTMLScraping id
      | None =>
          if has_media (net fetchViaFxtwitterAPI id)
          then net fetchViaFxtwitterAPI id
          else net fetchViaHTMLScraping id
      end.
Proof.
  intros Hid. unfold handleScrapeRequestDirect. rewrite Hid.
  rewrite (status_id_truthy _ _ Hid). cbn [negb].
  rewrite !run_call. cbn [fst].
  destruct (net fetchViaSyndicationAPI id) as [a|] eqn:Ea.
  - destruct (has_media (Some a)); cbn [negb];
      [reflexivity|now rewrite run_call].
  - destruct (has_media (net fetchViaFxtwitterAPI id)); cbn [negb];
      [reflexivity|now rewrite run_call].
Qed.

(** When source A has media, the answer is built from A alone, whatever
    source B resolved to: A's media ranked, method "api_a", A's user and
    text; source C is not called.  The only other outcome is the service
    error of a timestamp the host's [Date] rejects. *)
Lemma first_source_media_wins
  (host : Host) (net : network) (tweetUrl id : string) (a : Result.t) :
  extractStatusIdFromUrl tweetUrl = Some id ->
  net fetchViaSyndicationAPI id = Some a ->
  has_media (Some a) = true ->
  snd (run net (handleScrapeRequestDirect host tweetUrl))
  = [(fetchViaSyndicationAPI, id); (fetchViaFxtwitterAPI, id)] /\
  (fst (run net (handleScrapeRequestDirect host tweetUrl))
   = service_error \/
   exists created_at info,
     fst (run net (handleScrapeRequestDirect host tweetUrl))
     = jsonResponse
         (Success tweetUrl id "api_a" (Result.user a) (Result.text a)
            created_at
            (enhanceMediaWithResolutions (Result.media a) id)
            (List.length
               (enhanceMediaWithResolutions (Result.media a) id))
            info)
         200).
Proof.
  intros Hid Ha Hm. split.
  - unfold handleScrapeRequestDirect. rewrite Hid.
    rewrite (status_id_truthy _ _ Hid). cbn [negb].
    rewrite !run_call, Ha, Hm. reflexivity.
  - rewrite (handler_selection host net tweetUrl id Hid), Ha, Hm.
    unfold respond. rewrite Hm. cbn [negb].
    unfold with_method, with_media, with_created_at.
    cbn [Result.created_at Result.media Result.method Result.user
         Result.text].
    destruct (Result.created_at a) as [iso|n].
    + destruct (generateDownloadInfo host _ id) as [info|];
        [right|now left].
      cbn [Result.created_at Result.media Result.method Result.user
           Result.text or_default truthy].
      eauto.
    + destruct (iso_of_millis host (n * 1000)) as [iso|]; [|now left].
      destruct (generateDownloadInfo host _ id) as [info|];
        [right|now left].
      cbn [Result.created_at Result.media Result.method Result.user
           Result.text or_default truthy].
      eauto.
Qed.

(** C1: when the payload of source A has an empty [photos] array, A
    resolves to a result without media; with a source B that has a photo,
    the first source in the order A, B, C with media is B, yet the handler
    passes B over, calls C, and answers 404. *)
Theorem empty_first_source_hides_second (host : Host) :
  syndication_outcome host [Ok payload_A_no_photos] <> None /\
  has_media (syndication_outcome host [Ok payload_A_no_photos]) = false /\
  has_media (fxtwitter_outcome host (Ok (Some payload_B_photo))) = true /\
  first_with_media (syndication_outcome host [Ok payload_A_no_photos])
                   (fxtwitter_outcome host (Ok (Some payload_B_photo)))
                   None
  = fxtwitter_outcome host (Ok (Some payload_B_photo)) /\
  run (outcomes (syndication_outcome host [Ok payload_A_no_photos])
                (fxtwitter_outcome host (Ok (Some payload_B_photo)))
                None)
      (handleScrapeRequestDirect host sample_url)
  = (Response.make 404 (corsHeaders (Some "application/json"))
       (Failure "Content not available" (Some "1234567890123")),
     [(fetchViaSyndicationAPI, "1234567890123");
      (fetchViaFxtwitterAPI, "1234567890123");
      (fetchViaHTMLScraping, "1234567890123")]).
Proof. repeat split; try reflexivity. discriminate. Qed.

(** With source A [null] instead, the same source B is the base of a
    successful answer. *)
Example absent_first_source_leaves_second :
  Response.status
    (fst (run (outcomes None
                 (fxtwitter_outcome fixed_host (Ok (Some payload_B_photo)))
                 None)
              (handleScrapeRequestDirect fixed_host sample_url)))
  = 200 /\
  response_media
    (fst (run (outcomes None
                 (fxtwitter_outcome fixed_host (Ok (Some payload_B_photo)))
                 None)
              (handleScrapeRequestDirect fixed_host sample_url)))
  = [sample_photo_B].
Proof. split; reflexivity. Qed.

(** The two lists of the download summary are duplicate-free and leave
    "unknown" out as well; they are sorted by tier rank and by pixel area
    rather than kept in the order seen. *)
Lemma download_info_lists
  (host : Host) (mediaData : Result.t) (tweetId : string)
  (info : DownloadInfo.t) :
  generateDownloadInfo host mediaData tweetId = Some info ->
  NoDup (DownloadInfo.available_qualities info) /\
  NoDup (DownloadInfo.available_resolutions info) /\
  ~ In "unknown" (DownloadInfo.available_qualities info) /\
  ~ In "unknown" (DownloadInfo.available_resolutions info).
Proof.
  unfold generateDownloadInfo.
  destruct (date_iso host (Result.created_at mediaData)); [|discriminate].
  intros [= <-].
  cbn [DownloadInfo.available_qualities DownloadInfo.available_resolutions].
  assert (Hnd : forall (cmp : string -> string -> Z) l,
                  NoDup (sort cmp (new_Set (filter known l)))).
  { intros cmp l. eapply Permutation_NoDup; [apply sort_perm|].
    rewrite SetFacts.new_Set_distinct. apply SetFacts.distinct_NoDup. }
  assert (Hun : forall (cmp : string -> string -> Z) l,
                  ~ In "unknown" (sort cmp (new_Set (filter known l)))).
  { intros cmp l Hin.
    eapply Permutation_in in Hin; [|apply Permutation_sym, sort_perm].
    rewrite SetFacts.new_Set_distinct in Hin.
    apply SetFacts.distinct_In, filter_In in Hin.
    destruct Hin as [_ Hin]. discriminate Hin. }
  repeat split; auto.
Qed.

Lemma respond_media (host : Host) (tweetUrl id : string)
  (syndicationResult result : option Result.t) :
  exists items,
    response_media (respond host tweetUrl id syndicationResult result)
    = map enhance items.
Proof.
  unfold respond.
  destruct result as [r|]; [|now exists []].
  destruct (has_media (Some r)); cbn [negb]; [|now exists []].
  match goal with
  | |- context [match ?x with Some _ => _ | None => service_error end] =>
      destruct x as [r2|] eqn:E2; [|now exists []]
  end.
  destruct (generateDownloadInfo host r2 id); [|now exists []].
  cbn [response_media jsonResponse Response.json].
  assert (Hr2 : exists items, Result.media r2 = map enhance items).
  { destruct syndicationResult as [a|];
      [destruct (has_media (Some a))|];
      cbn [Result.created_at with_method with_media] in E2;
      destruct (Result.created_at r);
      try destruct (iso_of_millis host _);
      try discriminate; injection E2 as <-;
      cbn [Result.media with_method with_media with_created_at];
      unfold enhanceMediaWithResolutions; eauto. }
  exact Hr2.
Qed.

Lemma handler_media (host : Host) (net : network) (tweetUrl : string) :
  exists items,
    response_media (fst (run net (handleScrapeRequestDirect host tweetUrl)))
    = map enhance items.
Proof.
  destruct (extractStatusIdFromUrl tweetUrl) as [id|] eqn:Hid.
  - rewrite (handler_selection host net tweetUrl id Hid).
    apply respond_media.
  - unfold handleScrapeRequestDirect. rewrite Hid. now exists [].
Qed.

(** C5, as the specification states it, fails: a photo of source A is in
    the answer with the bare photo address as its primary locator, while
    its only variant carries the address with the format suffix. *)
Lemma photo_primary_is_not_first_variant :
  In sample_photo_A
     (response_media
        (fst (run (outcomes (syndication_outcome fixed_host
                               [Ok payload_A_photo])
                            None None)
                  (handleScrapeRequestDirect fixed_host sample_url)))) /\
  ~ primary_is_first sample_photo_A.
Proof.
  split.
  - vm_compute. left. reflexivity.
  - unfold primary_is_first. vm_compute. discriminate.
Qed.

(** C5, amended: every video or gif item of an answer has the locator of
    the first variant of its variant list as its primary locator and as
    its download locator, and its variant list is in ranked order: ranking
    it again leaves it as it is. *)
Theorem ranked_primary_is_first
  (host : Host) (net : network) (tweetUrl : string) (item : MediaItem.t) :
  In item
     (response_media
        (fst (run net (handleScrapeRequestDirect host tweetUrl)))) ->
  MediaItem.type item <> photo ->
  primary_is_first item /\
  MediaItem.download_url item = MediaItem.url item /\
  StronglySorted (descending pixels) (MediaItem.variants item) /\
  sort by_pixels (MediaItem.variants item) = MediaItem.variants item.
Proof.
  intros Hin Hty.
  destruct (handler_media host net tweetUrl) as (items & Hm).
  rewrite Hm in Hin. apply in_map_iff in Hin.
  destruct Hin as (original & <- & _).
  rewrite enhance_type in Hty.
  pose proof (enhance_variants original Hty) as Hvs.
  destruct (enhance_ranked original Hty) as (f & r & E & Hi).
  assert (Hs : StronglySorted (descending pixels)
                              (MediaItem.variants (enhance original))).
  { rewrite Hvs. apply sort_sorted, by_pixels_key. }
  repeat split.
  - rewrite Hi. reflexivity.
  - rewrite Hi. reflexivity.
  - exact Hs.
  - apply (sort_fixed pixels by_pixels by_pixels_key), Hs.
Qed.

(** An instance: the video of source A, ranked in the answer. *)
Lemma ranked_primary_is_first_witness :
  primary_is_first (enhance sample_video_A) /\
  MediaItem.url (enhance sample_video_A)
  = Some "https://video.twimg.com/vid/1280x720/a.mp4".
Proof.
  split; [|reflexivity].
  apply (ranked_primary_is_first fixed_host
           (outcomes (syndication_outcome fixed_host [Ok payload_A_video])
                     None None)
           sample_url (enhance sample_video_A)).
  - vm_compute. left. reflexivity.
  - vm_compute. discriminate.
Defined.

End HandlerFacts.

(** ** Labels: printing, parsing and locators *)

Module LabelFacts.
Import JS Twitter Spec.

Lemma digits_value_acc (u : Decimal.uint) (acc : positive) :
  digits_value (Z.pos acc) (NilEmpty.string_of_uint u)
  = Z.pos (Pos.of_uint_acc u acc).
Proof.
  revert acc. induction u; intros acc;
    cbn [NilEmpty.string_of_uint digits_value Pos.of_uint_acc];
    try reflexivity;
    rewrite <- IHu; f_equal;
    match goal with
    | |- context [digit_value ?c] =>
        let v := eval vm_compute in (digit_value c) in
        change (digit_value c) with v
    end; lia.
Qed.

Lemma digits_value_of_uint (u : Decimal.uint) :
  digits_value 0 (NilEmpty.string_of_uint u) = Z.of_N (Pos.of_uint u).
Proof.
  induction u;
    cbn [NilEmpty.string_of_uint digits_value Pos.of_uint Z.of_N];
    try reflexivity; try exact IHu;
    rewrite <- digits_value_acc; f_equal.
Qed.

Lemma all_digits_of_uint (u : Decimal.uint) :
  all_digits (NilEmpty.string_of_uint u) = true.
Proof. induction u; simpl; auto. Qed.

Lemma append_assoc (a b c : string) : (a ++ b) ++ c = a ++ b ++ c.
Proof. induction a as [|x a IH]; simpl; [reflexivity|now rewrite IH]. Qed.

Lemma append_nil_r (a : string) : a ++ EmptyString = a.
Proof. induction a as [|x a IH]; simpl; [reflexivity|now rewrite IH]. Qed.

Lemma append_length (a b : string) :
  String.length (a ++ b) = (String.length a + String.length b)%nat.
Proof. induction a as [|x a IH]; simpl; [reflexivity|now rewrite IH]. Qed.

Lemma rev_string_app (acc s : string) :
  rev_string acc s = rev_string EmptyString s ++ acc.
Proof.
  revert acc. induction s as [|c s IH]; intros acc; simpl; [reflexivity|].
  rewrite (IH (String c acc)), (IH (String c EmptyString)).
  now rewrite append_assoc.
Qed.

Lemma rev_string_append (s t : string) :
  rev_string EmptyString (s ++ t)
  = rev_string EmptyString t ++ rev_string EmptyString s.
Proof.
  induction s as [|c s IH]; simpl.
  - now rewrite append_nil_r.
  - rewrite (rev_string_app (String c EmptyString) (s ++ t)), IH,
      (rev_string_app (String c EmptyString) s).
    now rewrite append_assoc.
Qed.

Lemma rev_string_involutive (s : string) :
  rev_string EmptyString (rev_string EmptyString s) = s.
Proof.
  induction s as [|c s IH]; simpl; [reflexivity|].
  rewrite (rev_string_app (String c EmptyString) s), rev_string_append, IH.
  reflexivity.
Qed.

Lemma every_rev_string (f : ascii -> bool) (acc s : string) :
  every f s = true -> every f acc = true ->
  every f (rev_string acc s) = true.
Proof.
  revert acc. induction s as [|c s IH]; intros acc Hs Hacc; simpl in *;
    [exact Hacc|].
  apply andb_true_iff in Hs. destruct Hs as [Hc Hs].
  apply IH; [exact Hs|]. simpl. now rewrite Hc.
Qed.

Lemma drop_spaces_none (s : string) :
  every (fun c => negb (is_space c)) s = true -> drop_spaces s = s.
Proof.
  destruct s as [|c s]; simpl; [reflexivity|].
  intros H. apply andb_true_iff in H. destruct H as [Hc _].
  now destruct (is_space c).
Qed.

(** A string without white space is its own trimmed form. *)
Lemma trim_none (s : string) :
  every (fun c => negb (is_space c)) s = true -> trim s = s.
Proof.
  intros H. unfold trim. rewrite (drop_spaces_none s H).
  rewrite drop_spaces_none by now apply every_rev_string.
  apply rev_string_involutive.
Qed.

Lemma digit_is_plain (c : ascii) :
  is_digit c = true ->
  is_space c = false /\ c <> "+"%char /\ c <> "-"%char /\
  c <> "x"%char /\ c <> "u"%char.
Proof.
  destruct c as [[] [] [] [] [] [] [] []]; intros H;
    try discriminate H; repeat split; discriminate.
Qed.

Lemma all_digits_no_space (s : string) :
  all_digits s = true -> every (fun c => negb (is_space c)) s = true.
Proof.
  induction s as [|c s IH]; simpl; [reflexivity|].
  intros H. apply andb_true_iff in H. destruct H as [Hc Hs].
  destruct (digit_is_plain c Hc) as [-> _]. now apply IH.
Qed.

(** [Number] of a run of digits is its value. *)
Lemma Number_digits (s : string) :
  s <> EmptyString -> all_digits s = true ->
  Number s = Num (digits_value 0 s).
Proof.
  intros Hne Hd. unfold Number.
  rewrite (trim_none s (all_digits_no_space s Hd)).
  destruct s as [|c r]; [congruence|].
  assert (Hc : is_digit c = true)
    by (simpl in Hd; now apply andb_true_iff in Hd).
  destruct (digit_is_plain c Hc) as (_ & Hplus & Hminus & _).
  assert (E : unsigned_decimal (String c r)
              = Num (digits_value 0 (String c r)))
    by (unfold unsigned_decimal; now rewrite Hd).
  destruct c as [[] [] [] [] [] [] [] []];
    try discriminate Hc; exact E.
Qed.

Lemma Number_negative (r : string) :
  r <> EmptyString -> all_digits r = true ->
  Number (String "-" r) = Num (- digits_value 0 r).
Proof.
  intros Hne Hd. unfold Number.
  rewrite trim_none
    by (simpl; now rewrite all_digits_no_space).
  unfold unsigned_decimal. destruct r as [|c r]; [congruence|].
  now rewrite Hd.
Qed.

Lemma string_of_uint_nonempty (u : Decimal.uint) :
  u <> Decimal.Nil -> NilEmpty.string_of_uint u <> EmptyString.
Proof. destruct u; simpl; congruence. Qed.

Lemma render_positive (p : positive) :
  render (Some (Z.pos p)) = NilEmpty.string_of_uint (Pos.to_uint p).
Proof.
  unfold render. cbn [Z.to_int NilZero.string_of_int].
  unfold NilZero.string_of_uint.
  pose proof (DecimalPos.Unsigned.to_uint_nonnil p) as H.
  now destruct (Pos.to_uint p).
Qed.

Lemma render_negative (p : positive) :
  render (Some (Z.neg p))
  = String "-" (NilEmpty.string_of_uint (Pos.to_uint p)).
Proof.
  unfold render. cbn [Z.to_int NilZero.string_of_int].
  unfold NilZero.string_of_uint.
  pose proof (DecimalPos.Unsigned.to_uint_nonnil p) as H.
  now destruct (Pos.to_uint p).
Qed.

(** Printing a JSON integer and reading it back with [Number]. *)
Lemma Number_render (z : Z) : Number (render (Some z)) = Num z.
Proof.
  destruct z as [|p|p].
  - reflexivity.
  - rewrite render_positive, Number_digits.
    + now rewrite digits_value_of_uint, DecimalPos.Unsigned.of_to.
    + apply string_of_uint_nonempty, DecimalPos.Unsigned.to_uint_nonnil.
    + apply all_digits_of_uint.
  - rewrite render_negative, Number_negative.
    + now rewrite digits_value_of_uint, DecimalPos.Unsigned.of_to.
    + apply string_of_uint_nonempty, DecimalPos.Unsigned.to_uint_nonnil.
    + apply all_digits_of_uint.
Qed.

Lemma split_x_plain (s : string) :
  every (fun c => negb (Ascii.eqb c "x")) s = true -> split_x s = [s].
Proof.
  induction s as [|c s IH]; simpl; [reflexivity|].
  intros H. apply andb_true_iff in H. destruct H as [Hc Hs].
  destruct (Ascii.eqb c "x"); [discriminate|]. now rewrite (IH Hs).
Qed.

Lemma split_x_first (a b : string) :
  every (fun c => negb (Ascii.eqb c "x")) a = true ->
  split_x (a ++ String "x" b) = a :: split_x b.
Proof.
  induction a as [|c a IH]; simpl; [reflexivity|].
  intros H. apply andb_true_iff in H. destruct H as [Hc Ha].
  destruct (Ascii.eqb c "x"); [discriminate|]. now rewrite (IH Ha).
Qed.

Lemma all_digits_no_x (s : string) :
  all_digits s = true -> every (fun c => negb (Ascii.eqb c "x")) s = true.
Proof.
  induction s as [|c s IH]; simpl; [reflexivity|].
  intros H. apply andb_true_iff in H. destruct H as [Hc Hs].
  destruct (digit_is_plain c Hc) as (_ & _ & _ & Hx & _).
  apply Ascii.eqb_neq in Hx. rewrite Hx. now apply IH.
Qed.

Lemma render_no_x (n : option Z) :
  every (fun c => negb (Ascii.eqb c "x")) (render n) = true.
Proof.
  destruct n as [[|p|p]|]; try reflexivity.
  - rewrite render_positive. apply all_digits_no_x, all_digits_of_uint.
  - rewrite render_negative. simpl.
    apply all_digits_no_x, all_digits_of_uint.
Qed.

Lemma render_head (z : Z) :
  exists c t, render (Some z) = String c t /\ c <> "u"%char.
Proof.
  destruct z as [|p|p].
  - exists "0"%char, EmptyString. split; [reflexivity|discriminate].
  - rewrite render_positive.
    pose proof (DecimalPos.Unsigned.to_uint_nonnil p) as H.
    pose proof (all_digits_of_uint (Pos.to_uint p)) as Hd.
    destruct (NilEmpty.string_of_uint (Pos.to_uint p)) as [|c t] eqn:E.
    + now apply string_of_uint_nonempty in E.
    + exists c, t. split; [reflexivity|].
      simpl in Hd. apply andb_true_iff in Hd.
      now apply digit_is_plain.
  - rewrite render_negative. eexists _, _. split; [reflexivity|discriminate].
Qed.

Lemma Number_or_zero (n : option Z) :
  or_zero (Some (Number (render n))) = or_0 n.
Proof.
  destruct n as [z|]; [|reflexivity]. now rewrite Number_render.
Qed.

Lemma size_label_parts (w h : option Z) :
  map Number (split_x (render w ++ "x" ++ render h))
  = [Number (render w); Number (render h)].
Proof.
  change (render w ++ "x" ++ render h)
    with (render w ++ String "x" (render h)).
  rewrite split_x_first by apply render_no_x.
  rewrite split_x_plain by apply render_no_x. reflexivity.
Qed.

Lemma size_label_plain (w h : option Z) :
  w <> None \/ h <> None ->
  negb (truthy (Some (render w ++ "x" ++ render h)))
  || is_sentinel (render w ++ "x" ++ render h) = false.
Proof.
  intros H. apply orb_false_iff. split.
  - destruct (render w); reflexivity.
  - unfold is_sentinel.
    destruct w as [z|].
    + destruct (render_head z) as (c & t & -> & Hc).
      apply Ascii.eqb_neq in Hc. simpl. now rewrite Hc.
    + destruct h as [z|]; [|destruct H; congruence].
      destruct (render_head z) as (c & t & -> & Hc).
      apply Ascii.eqb_neq in Hc. simpl. now rewrite Hc.
Qed.

Lemma size_label_parses (w h : option Z) :
  parseResolution (Some (render w ++ "x" ++ render h))
  = Resolution.make (or_0 w) (or_0 h).
Proof.
  destruct w as [w|], h as [h|];
    try (unfold parseResolution;
         rewrite size_label_plain
           by (left; discriminate) || (right; discriminate);
         rewrite size_label_parts; cbn [nth_error];
         now rewrite !Number_or_zero).
  reflexivity.
Qed.

(** X1: the size label an extractor builds from a reported width and
    height parses back to that width and height, and to 0 for a dimension
    the payload does not report. *)
Theorem size_label_round_trip (w h : option Z) :
  parseResolution (Some (render w ++ "x" ++ render h))
  = Resolution.make (or_0 w) (or_0 h) /\
  Resolution.width
    (parseResolution (Some (render w ++ "x" ++ render h)))
  * Resolution.height
      (parseResolution (Some (render w ++ "x" ++ render h)))
  = or_0 w * or_0 h.
Proof.
  rewrite (size_label_parses w h). split; reflexivity.
Qed.

Lemma take_digits_exact (d : string) (c : ascii) (rest : string) :
  all_digits d = true -> is_digit c = false ->
  take_digits (d ++ String c rest) = (d, String c rest).
Proof.
  intros Hd Hc. induction d as [|x d IH]; simpl.
  - now rewrite Hc.
  - simpl in Hd. apply andb_true_iff in Hd. destruct Hd as [Hx Hd].
    now rewrite Hx, (IH Hd).
Qed.

Lemma match_resolution_sound (s r : string) :
  match_resolution s = Some r ->
  exists w h rest,
    s = w ++ "x" ++ h ++ "/" ++ rest /\ r = w ++ "x" ++ h /\
    w <> EmptyString /\ h <> EmptyString /\
    all_digits w = true /\ all_digits h = true.
Proof.
  unfold match_resolution.
  destruct (take_digits s) as [w r1] eqn:E1.
  destruct (HandlerFacts.take_digits_split _ _ _ E1) as [-> Hw].
  destruct w as [|cw w]; [discriminate|].
  destruct r1 as [|x r2]; [discriminate|].
  destruct (Ascii.eqb_spec x "x") as [->|Hx];
    [|destruct x as [[] [] [] [] [] [] [] []];
      try discriminate; now elim Hx].
  destruct (take_digits r2) as [h r3] eqn:E2.
  destruct (HandlerFacts.take_digits_split _ _ _ E2) as [-> Hh].
  destruct h as [|ch h]; [discriminate|].
  destruct r3 as [|y r4]; [discriminate|].
  destruct (Ascii.eqb_spec y "/") as [->|Hy];
    [|destruct y as [[] [] [] [] [] [] [] []];
      try discriminate; now elim Hy].
  intros [= <-].
  exists (String cw w), (String ch h), r4.
  repeat split; try assumption; try discriminate.
Qed.

Lemma match_resolution_complete (w h rest : string) :
  w <> EmptyString -> h <> EmptyString ->
  all_digits w = true -> all_digits h = true ->
  match_resolution (w ++ "x" ++ h ++ "/" ++ rest) = Some (w ++ "x" ++ h).
Proof.
  intros Hw Hh Dw Dh. unfold match_resolution.
  change (w ++ "x" ++ h ++ "/" ++ rest)
    with (w ++ String "x" (h ++ String "/" rest)).
  rewrite take_digits_exact by (assumption || reflexivity).
  destruct w as [|cw w]; [congruence|].
  rewrite take_digits_exact by (assumption || reflexivity).
  destruct h as [|ch h]; [congruence|]. reflexivity.
Qed.

Lemma search_resolution_unfold (c : ascii) (r : string) :
  search_resolution (String c r)
  = if Ascii.eqb c "/"
    then match match_resolution r with
         | Some m => Some m
         | None => search_resolution r
         end
    else search_resolution r.
Proof. reflexivity. Qed.

Lemma search_resolution_sound (s r : string) :
  search_resolution s = Some r ->
  exists w h,
    r = w ++ "x" ++ h /\ w <> EmptyString /\ h <> EmptyString /\
    all_digits w = true /\ all_digits h = true /\
    contains ("/" ++ r ++ "/") s.
Proof.
  induction s as [|c s IH]; [discriminate|].
  rewrite search_resolution_unfold.
  assert (Hrec : search_resolution s = Some r ->
                 exists w h,
                   r = w ++ "x" ++ h /\ w <> EmptyString /\
                   h <> EmptyString /\ all_digits w = true /\
                   all_digits h = true /\
                   contains ("/" ++ r ++ "/") (String c s)).
  { intros H. destruct (IH H) as (w & h & ? & ? & ? & ? & ? & a & b & ->).
    exists w, h. repeat split; try assumption.
    now exists (String c a), b. }
  destruct (Ascii.eqb_spec c "/") as [->|_]; [|exact Hrec].
  destruct (match_resolution s) as [m|] eqn:E; [|exact Hrec].
  intros [= ->].
  destruct (match_resolution_sound _ _ E)
    as (w & h & rest & -> & -> & ? & ? & ? & ?).
  exists w, h. repeat split; try assumption.
  exists EmptyString, rest. simpl. f_equal.
  now rewrite !append_assoc.
Qed.

Lemma search_resolution_complete (s w h : string) :
  w <> EmptyString -> h <> EmptyString ->
  all_digits w = true -> all_digits h = true ->
  contains ("/" ++ w ++ "x" ++ h ++ "/") s ->
  search_resolution s <> None.
Proof.
  intros Hw Hh Dw Dh (a & b & ->).
  assert (E : ("/" ++ w ++ "x" ++ h ++ "/") ++ b
              = String "/" (w ++ "x" ++ h ++ "/" ++ b))
    by (simpl; f_equal; rewrite append_assoc; simpl; do 2 f_equal;
        now rewrite append_assoc).
  rewrite E. clear E.
  induction a as [|c a IH].
  - change (EmptyString ++ ?t) with t.
    rewrite search_resolution_unfold.
    rewrite (match_resolution_complete w h b) by assumption.
    simpl. discriminate.
  - change (String c a ++ ?t) with (String c (a ++ t)).
    rewrite search_resolution_unfold.
    destruct (Ascii.eqb c "/"); [|exact IH].
    now destruct (match_resolution _).
Qed.

Lemma digits_label_parse (w h : string) :
  w <> EmptyString -> h <> EmptyString ->
  all_digits w = true -> all_digits h = true ->
  parseResolution (Some (w ++ "x" ++ h))
  = Resolution.make (digits_value 0 w) (digits_value 0 h).
Proof.
  intros Hw Hh Dw Dh. unfold parseResolution.
  assert (E : negb (truthy (Some (w ++ "x" ++ h)))
              || is_sentinel (w ++ "x" ++ h) = false).
  { destruct w as [|c w]; [congruence|].
    simpl in Dw. apply andb_true_iff in Dw. destruct Dw as [Dc _].
    destruct (digit_is_plain c Dc) as (_ & _ & _ & _ & Hu).
    apply Ascii.eqb_neq in Hu. unfold is_sentinel. simpl. now rewrite Hu. }
  rewrite E.
  change (w ++ "x" ++ h) with (w ++ String "x" h).
  rewrite split_x_first by now apply all_digits_no_x.
  rewrite split_x_plain by now apply all_digits_no_x.
  cbn [map nth_error]. now rewrite !Number_digits.
Qed.

Lemma url_resolution_sound (url r : string) :
  getResolutionFromUrl (Some url) = Some r ->
  exists w h,
    r = w ++ "x" ++ h /\ w <> EmptyString /\ h <> EmptyString /\
    all_digits w = true /\ all_digits h = true /\
    contains ("/" ++ r ++ "/") url.
Proof.
  intros H. unfold getResolutionFromUrl in H.
  destruct (truthy (Some url)); [|discriminate].
  now apply search_resolution_sound.
Qed.

(** X2: a resolution is read off a locator exactly when the locator has
    a path segment of the form digits, x, digits; the label returned is
    such a segment of the locator, never "unknown", and the parser
    reads the two numbers back from it. *)
Theorem url_resolution_is_a_segment (url : string) :
  (getResolutionFromUrl (Some url) <> None <->
   exists w h,
     w <> EmptyString /\ h <> EmptyString /\
     all_digits w = true /\ all_digits h = true /\
     contains ("/" ++ w ++ "x" ++ h ++ "/") url) /\
  (forall r, getResolutionFromUrl (Some url) = Some r ->
     exists w h,
       r = w ++ "x" ++ h /\ w <> EmptyString /\ h <> EmptyString /\
       all_digits w = true /\ all_digits h = true /\
       contains ("/" ++ r ++ "/") url /\
       parseResolution (Some r)
       = Resolution.make (digits_value 0 w) (digits_value 0 h)).
Proof.
  assert (Hsound : forall r, getResolutionFromUrl (Some url) = Some r ->
            exists w h,
              r = w ++ "x" ++ h /\ w <> EmptyString /\ h <> EmptyString /\
              all_digits w = true /\ all_digits h = true /\
              contains ("/" ++ r ++ "/") url).
  { intros r H. unfold getResolutionFromUrl in H.
    destruct (truthy (Some url)); [|discriminate].
    now apply search_resolution_sound. }
  split; [split|].
  - intros H. destruct (getResolutionFromUrl (Some url)) as [r|] eqn:E;
      [|congruence].
    destruct (Hsound r eq_refl) as (w & h & -> & ? & ? & ? & ? & Hc).
    exists w, h. repeat split; try assumption.
    now rewrite <- !append_assoc in Hc |- *.
  - intros (w & h & Hw & Hh & Dw & Dh & Hc).
    unfold getResolutionFromUrl.
    destruct url as [|c url].
    + destruct Hc as (a & b & Hc). destruct a; discriminate Hc.
    + cbn [truthy]. now apply (search_resolution_complete _ w h).
  - intros r H. destruct (Hsound r H) as (w & h & -> & ? & ? & ? & ? & ?).
    exists w, h. repeat split; try assumption.
    now apply digits_label_parse.
Qed.

(** An instance: the rendition of a video at 1280 by 720. *)
Lemma url_resolution_is_a_segment_witness :
  exists w h,
    "1280x720" = w ++ "x" ++ h /\ w <> EmptyString /\ h <> EmptyString /\
    all_digits w = true /\ all_digits h = true /\
    contains ("/" ++ "1280x720" ++ "/")
             "https://video.twimg.com/vid/1280x720/a.mp4" /\
    parseResolution (Some "1280x720")
    = Resolution.make (digits_value 0 w) (digits_value 0 h).
Proof.
  apply (url_resolution_is_a_segment
           "https://video.twimg.com/vid/1280x720/a.mp4").
  reflexivity.
Defined.

End LabelFacts.

(** ** The quality classifier, beyond its table *)

Module ClassifierFacts.
Import JS Twitter Spec.

(** The classifier on a label whose first two pieces are numbers. *)
Lemma classifier_numeric (resolution : option string) (w h : Z) :
  parsed_width resolution = Num w -> parsed_height resolution = Num h ->
  getQualityFromResolution resolution
  = if (w =? 480) && (h =? 270) then "480p" else by_thresholds w h.
Proof.
  destruct resolution as [s|]; [|discriminate].
  unfold parsed_width, parsed_height, getQualityFromResolution.
  intros Hw Hh.
  destruct s as [|c s]; [discriminate|].
  cbn [truthy negb orb].
  destruct (is_sentinel (String c s)) eqn:Es.
  { apply ParserFacts.is_sentinel_cases in Es.
    destruct Es as [Es|Es]; rewrite Es in Hw; discriminate Hw. }
  revert Hw Hh.
  generalize (map Number (split_x (String c s))) as parts. intros parts.
  destruct (nth_error parts 0) as [[|w0]|]; try discriminate.
  destruct (nth_error parts 1) as [[|h0]|]; try discriminate.
  intros [= ->] [= ->].
  cbn [isNaN orb to_num num_eqb num_geb]. unfold by_thresholds.
  destruct ((w =? 480) && (h =? 270)) eqn:E0; [reflexivity|].
  repeat match goal with
         | |- context [(?a =? ?b) && (?c =? ?d)] =>
             let E := fresh "E" in
             destruct ((a =? b) && (c =? d)) eqn:E;
             [ apply andb_true_iff in E; destruct E as [Ea Eb];
               apply Z.eqb_eq in Ea, Eb; subst; reflexivity | ]
         end.
  reflexivity.
Qed.

Lemma classifier_not_numeric (resolution : option string) :
  parsed_width resolution = NaN \/ parsed_height resolution = NaN ->
  getQualityFromResolution resolution = "unknown".
Proof.
  destruct resolution as [s|]; [|reflexivity].
  unfold parsed_width, parsed_height, getQualityFromResolution.
  destruct (negb (truthy (Some s)) || is_sentinel s); [reflexivity|].
  generalize (map Number (split_x s)) as parts. intros parts.
  destruct (nth_error parts 0) as [[|w0]|];
    destruct (nth_error parts 1) as [[|h0]|]; try reflexivity.
  intros [H|H]; discriminate H.
Qed.

Lemma by_thresholds_rank (w h w' h' : Z) :
  w <= w' -> h <= h' ->
  qualityOrder (by_thresholds w h) <= qualityOrder (by_thresholds w' h').
Proof.
  intros Hw Hh. unfold by_thresholds.
  repeat (match goal with
          | |- context [(?a <=? ?b)] => destruct (Z.leb_spec a b)
          end; cbn [orb]; try (exfalso; lia));
    vm_compute; discriminate.
Qed.

(** X3: a label at least as wide and as high as another never gets a
    lower tier, with the one exception the exact table makes: 480x270 is
    "480p", above the "360p" of the larger 640x360. *)
Theorem classifier_monotone
  (r r' : option string) (w h w' h' : Z) :
  parsed_width r = Num w -> parsed_height r = Num h ->
  parsed_width r' = Num w' -> parsed_height r' = Num h' ->
  w <= w' -> h <= h' -> w <> 480 \/ h <> 270 ->
  qualityOrder (getQualityFromResolution r)
  <= qualityOrder (getQualityFromResolution r').
Proof.
  intros Pw Ph Pw' Ph' Hw Hh Hne.
  rewrite (classifier_numeric r w h Pw Ph),
          (classifier_numeric r' w' h' Pw' Ph').
  assert (E : (w =? 480) && (h =? 270) = false).
  { apply andb_false_iff. rewrite !Z.eqb_neq. tauto. }
  rewrite E.
  destruct ((w' =? 480) && (h' =? 270)) eqn:E'.
  - apply andb_true_iff in E'. destruct E' as [Ea Eb].
    apply Z.eqb_eq in Ea, Eb. subst.
    unfold by_thresholds.
    repeat (match goal with
            | |- context [(?a <=? ?b)] => destruct (Z.leb_spec a b)
            end; cbn [orb]; try (exfalso; lia));
      vm_compute; discriminate.
  - now apply by_thresholds_rank.
Qed.

(** An instance: 1280x720 against 1920x1080; and the exception. *)
Lemma classifier_monotone_witness :
  qualityOrder (getQualityFromResolution (Some "1280x720"))
  <= qualityOrder (getQualityFromResolution (Some "1920x1080")) /\
  qualityOrder (getQualityFromResolution (Some "640x360"))
  < qualityOrder (getQualityFromResolution (Some "480x270")).
Proof.
  split; [|reflexivity].
  apply (classifier_monotone (Some "1280x720") (Some "1920x1080")
           1280 720 1920 1080);
    try reflexivity; try lia.
Defined.

(** X4: the classifier answers "unknown" exactly for a label whose first
    two pieces are not both numbers, and for one narrower than 640 and
    lower than 360 other than 480x270. *)
Theorem classifier_unknown_iff (resolution : option string) :
  getQualityFromResolution resolution <> "unknown" <->
  exists w h,
    parsed_width resolution = Num w /\ parsed_height resolution = Num h /\
    (640 <= w \/ 360 <= h \/ (w = 480 /\ h = 270)).
Proof.
  destruct (parsed_width resolution) as [|w] eqn:Pw.
  { rewrite classifier_not_numeric by now left.
    split; [congruence|]. intros (w & h & H & _). discriminate H. }
  destruct (parsed_height resolution) as [|h] eqn:Ph.
  { rewrite classifier_not_numeric by now right.
    split; [congruence|]. intros (w' & h' & _ & H & _). discriminate H. }
  rewrite (classifier_numeric resolution w h Pw Ph).
  split.
  - intros Hq. exists w, h. repeat split.
    destruct ((w =? 480) && (h =? 270)) eqn:E.
    + apply andb_true_iff in E. destruct E as [Ea Eb].
      apply Z.eqb_eq in Ea, Eb. auto.
    + unfold by_thresholds in Hq.
      destruct (Z.leb_spec 640 w); [auto|].
      destruct (Z.leb_spec 360 h); [auto|].
      exfalso. apply Hq.
      repeat (match goal with
              | |- context [(?a <=? ?b)] => destruct (Z.leb_spec a b)
              end; cbn [orb]; try (exfalso; lia)).
      reflexivity.
  - intros (w0 & h0 & [= <-] & [= <-] & Hc).
    destruct ((w =? 480) && (h =? 270)) eqn:E; [discriminate|].
    apply andb_false_iff in E. rewrite !Z.eqb_neq in E.
    unfold by_thresholds.
    repeat (match goal with
            | |- context [(?a <=? ?b)] => destruct (Z.leb_spec a b)
            end; cbn [orb]; try discriminate; try (exfalso; lia)).
Qed.

End ClassifierFacts.

(** ** The ranker, beyond order and idempotence *)

Module RankerExtras.
Import JS Twitter Spec SortFacts RankerFacts.

Section Head.
Context {A : Type} (key : A -> Z) (cmp : A -> A -> Z).
Hypothesis cmp_key : forall a b, cmp a b = key b - key a.

(** The head of the sorted list is the first element of greatest key. *)
Lemma sort_head (l : list A) (first : A) (rest : list A) :
  sort cmp l = first :: rest ->
  exists before after,
    l = (before ++ first :: after)%list /\
    Forall (fun u => key u < key first) before /\
    Forall (fun u => key u <= key first) after.
Proof.
  revert first rest. induction l as [|x l IH]; intros first rest;
    [discriminate|].
  cbn [sort fold_right]. fold (sort cmp l).
  destruct (sort cmp l) as [|y s] eqn:E.
  - assert (l = []) as ->.
    { apply length_zero_iff_nil. now rewrite <- (sort_length cmp), E. }
    intros [= <- <-]. exists [], []. repeat split; constructor.
  - destruct (IH y s eq_refl) as (b & a & -> & Hb & Ha).
    cbn [insert]. rewrite cmp_key.
    destruct (0 <? key y - key x) eqn:L.
    + apply Z.ltb_lt in L. intros [= <- <-].
      exists (x :: b), a. repeat split; [|assumption].
      constructor; [lia|assumption].
    + apply Z.ltb_ge in L. intros [= <- <-].
      exists [], (b ++ y :: a)%list. repeat split; [constructor|].
      rewrite Forall_app. split; [|constructor].
      * eapply Forall_impl; [|exact Hb]. cbv beta. intros; lia.
      * lia.
      * eapply Forall_impl; [|exact Ha]. cbv beta. intros; lia.
Qed.
End Head.

(** X5: the ranker makes the first variant of greatest pixel area the
    primary one: the variants before it in the extractor's order are
    strictly smaller, those after it are not larger, and the item's
    locator, download locator and best quality are taken from it. *)
Theorem ranked_first_is_largest (item : MediaItem.t) :
  MediaItem.type item <> photo ->
  exists before best after,
    raw_variants item = (before ++ best :: after)%list /\
    Forall (fun v => pixels v < pixels best) before /\
    Forall (fun v => pixels v <= pixels best) after /\
    hd_error (MediaItem.variants (enhance item)) = Some best /\
    MediaItem.url (enhance item) = Variant.url best /\
    MediaItem.download_url (enhance item) = Variant.url best /\
    MediaItem.best_quality (enhance item) = Some (Variant.quality best).
Proof.
  intros Hty. destruct (enhance_ranked item Hty) as (f & r & E & ->).
  destruct (sort_head pixels by_pixels by_pixels_key _ _ _ E)
    as (b & a & Hl & Hb & Ha).
  exists b, f, a. repeat split; assumption.
Qed.

(** An instance: the video of source A, largest rendition last. *)
Lemma ranked_first_is_largest_witness :
  exists before best after,
    raw_variants sample_video_A = (before ++ best :: after)%list /\
    Forall (fun v => pixels v < pixels best) before /\
    Forall (fun v => pixels v <= pixels best) after /\
    hd_error (MediaItem.variants (enhance sample_video_A)) = Some best /\
    MediaItem.url (enhance sample_video_A) = Variant.url best /\
    MediaItem.download_url (enhance sample_video_A) = Variant.url best /\
    MediaItem.best_quality (enhance sample_video_A)
    = Some (Variant.quality best).
Proof.
  apply (ranked_first_is_largest sample_video_A). discriminate.
Defined.

(** X6: ranking a video or gif that has variants neither loses nor
    invents one, and leaves the kind, thumbnail, duration, width, height
    and size of the item as they were. *)
Theorem ranking_keeps_variants (item : MediaItem.t) :
  MediaItem.type item <> photo ->
  MediaItem.variants item <> [] ->
  Permutation (MediaItem.variants item)
              (MediaItem.variants (enhance item)) /\
  MediaItem.type (enhance item) = MediaItem.type item /\
  MediaItem.thumbnail_url (enhance item) = MediaItem.thumbnail_url item /\
  MediaItem.duration (enhance item) = MediaItem.duration item /\
  MediaItem.width (enhance item) = MediaItem.width item /\
  MediaItem.height (enhance item) = MediaItem.height item /\
  MediaItem.size (enhance item) = MediaItem.size item.
Proof.
  intros Hty Hvs.
  pose proof (enhance_variants item Hty) as Ev.
  destruct (enhance_ranked item Hty) as (f & r & E & Hi).
  split.
  - rewrite Ev. unfold raw_variants.
    destruct (MediaItem.variants item) as [|v vs]; [congruence|].
    apply sort_perm.
  - rewrite Hi. repeat split.
Qed.

(** An instance: the video of source A. *)
Lemma ranking_keeps_variants_witness :
  Permutation (MediaItem.variants sample_video_A)
              (MediaItem.variants (enhance sample_video_A)) /\
  MediaItem.duration (enhance sample_video_A) = Some 30.
Proof.
  destruct (ranking_keeps_variants sample_video_A)
    as (Hp & _ & _ & Hd & _).
  - discriminate.
  - vm_compute. discriminate.
  - split; [exact Hp|]. rewrite Hd. reflexivity.
Defined.

(** X7: after ranking no video or gif is without a variant: an item that
    had some keeps their number, and an item that had none gets exactly
    one, which carries the item's own locator, so that the locator of
    the item does not change, and whose resolution is the one in the
    locator when there is one. *)
Theorem ranking_fills_missing_variants (item : MediaItem.t) :
  MediaItem.type item <> photo ->
  List.length (MediaItem.variants (enhance item))
  = Nat.max 1 (List.length (MediaItem.variants item)) /\
  (MediaItem.variants item = [] ->
     MediaItem.url (enhance item) = MediaItem.url item /\
     exists v,
       MediaItem.variants (enhance item) = [v] /\
       Variant.url v = MediaItem.url item /\
       Variant.resolution v <> EmptyString /\
       Variant.quality v
       = getQualityFromResolution (Some (Variant.resolution v)) /\
       forall r, getResolutionFromUrl (MediaItem.url item) = Some r ->
                 Variant.resolution v = r).
Proof.
  intros Hty.
  pose proof (enhance_variants item Hty) as Ev.
  destruct (enhance_ranked item Hty) as (f & r & E & Hi).
  split.
  - rewrite Ev, (sort_length by_pixels). unfold raw_variants.
    destruct (MediaItem.variants item) as [|v vs]; [reflexivity|].
    cbn [List.length]. lia.
  - intros Hnone. unfold raw_variants in E, Ev. rewrite Hnone in E, Ev.
    cbn [sort fold_right insert] in E, Ev.
    injection E as <- <-. rewrite Hi. cbn [MediaItem.url].
    split; [reflexivity|].
    exists (fallback_variant item). unfold fallback_variant.
    cbn [Variant.url Variant.resolution Variant.quality MediaItem.variants].
    repeat split.
    + apply or_default_nonempty. discriminate.
    + intros res Hres. rewrite Hres.
      assert (Ht : truthy (Some res) = true).
      { destruct (MediaItem.url item) as [u|]; [|discriminate].
        destruct (LabelFacts.url_resolution_sound u res Hres)
          as (w & h & -> & Hw & _).
        destruct w; [congruence|reflexivity]. }
      unfold or_else, or_default. rewrite Ht. now rewrite Ht.
Qed.

(** An instance: a video without variants whose locator names 640x360,
    although its size says 1280x720. *)
Lemma ranking_fills_missing_variants_witness :
  List.length (MediaItem.variants (enhance sample_bare_video)) = 1%nat /\
  MediaItem.url (enhance sample_bare_video)
  = MediaItem.url sample_bare_video /\
  map Variant.resolution (MediaItem.variants (enhance sample_bare_video))
  = ["640x360"].
Proof.
  destruct (ranking_fills_missing_variants sample_bare_video)
    as (Hl & Hnone).
  - discriminate.
  - destruct (Hnone eq_refl) as (Hu & v & Hv & _).
    split; [exact Hl|split; [exact Hu|reflexivity]].
Defined.

Lemma distinct_head (x : string) (l : list string) :
  new_Set (x :: l) = x :: remove string_dec x (new_Set l).
Proof. now rewrite !SetFacts.new_Set_distinct. Qed.

(** X8: on a ranked video or gif the available qualities and resolutions
    list labels of its variants only, and a best quality other than
    "unknown" is the first of the available qualities, as the resolution of
    the first variant is the first of the available resolutions. *)
Theorem available_lists_start_with_best (item : MediaItem.t) :
  MediaItem.type item <> photo ->
  exists best rest qualities resolutions,
    MediaItem.variants (enhance item) = best :: rest /\
    MediaItem.available_qualities (enhance item) = Some qualities /\
    MediaItem.available_resolutions (enhance item) = Some resolutions /\
    incl qualities (map Variant.quality (best :: rest)) /\
    incl resolutions (map Variant.resolution (best :: rest)) /\
    (known (Variant.quality best) = true ->
       hd_error qualities = MediaItem.best_quality (enhance item)) /\
    (known (Variant.resolution best) = true ->
       hd_error resolutions = Some (Variant.resolution best)).
Proof.
  intros Hty. destruct (enhance_ranked item Hty) as (f & r & E & ->).
  cbn [MediaItem.variants MediaItem.available_qualities
       MediaItem.available_resolutions MediaItem.best_quality].
  exists f, r. eexists _, _.
  split; [reflexivity|]. split; [reflexivity|]. split; [reflexivity|].
  repeat split.
  - intros q Hq. rewrite SetFacts.new_Set_distinct in Hq.
    apply SetFacts.distinct_In, filter_In in Hq. tauto.
  - intros q Hq. rewrite SetFacts.new_Set_distinct in Hq.
    apply SetFacts.distinct_In, filter_In in Hq. tauto.
  - intros Hk. cbn [map filter]. rewrite Hk, distinct_head. reflexivity.
  - intros Hk. cbn [map filter]. rewrite Hk, distinct_head. reflexivity.
Qed.

(** An instance: the video of source A. *)
Lemma available_lists_start_with_best_witness :
  exists best rest qualities resolutions,
    MediaItem.variants (enhance sample_video_A) = best :: rest /\
    MediaItem.available_qualities (enhance sample_video_A)
    = Some qualities /\
    MediaItem.available_resolutions (enhance sample_video_A)
    = Some resolutions /\
    incl qualities (map Variant.quality (best :: rest)) /\
    incl resolutions (map Variant.resolution (best :: rest)) /\
    (known (Variant.quality best) = true ->
       hd_error qualities
       = MediaItem.best_quality (enhance sample_video_A)) /\
    (known (Variant.resolution best) = true ->
       hd_error resolutions = Some (Variant.resolution best)).
Proof.
  apply (available_lists_start_with_best sample_video_A). discriminate.
Defined.

End RankerExtras.

(** ** The structured extractors *)

Module ExtractorFacts.
Import JS Twitter Spec SortFacts RankerFacts.

(** X9: source A returns the result of the first endpoint that answers
    with a media field; endpoints that are not ok or have no media field
    are passed over, and an exception at one endpoint gives up the
    remaining ones. *)
Theorem syndication_endpoints
  (host : Host) (before rest : list (reply SynData.t)) :
  Forall (fruitless host) before ->
  (forall data result,
     syndication_result host data = Some result ->
     syndication_outcome host (before ++ Ok data :: rest)%list
     = Some result) /\
  syndication_outcome host (before ++ Throws :: rest)%list = None /\
  syndication_outcome host before = None.
Proof.
  induction 1 as [|x before Hx Hb IH].
  - repeat split.
    intros data result Hr. cbn [app syndication_outcome]. now rewrite Hr.
  - destruct IH as (IH1 & IH2 & IH3).
    destruct Hx as [->|(d & -> & Hd)];
      cbn [app syndication_outcome]; rewrite ?Hd; auto.
Qed.

(** An instance: the second endpoint answers after the first is not ok;
    an exception at the first hides the answer of the second. *)
Lemma syndication_endpoints_witness :
  has_media (syndication_outcome fixed_host [NotOk; Ok payload_A_photo])
  = true /\
  syndication_outcome fixed_host [Throws; Ok payload_A_photo] = None.
Proof.
  destruct (syndication_endpoints fixed_host [NotOk] [])
    as (H1 & _ & _).
  - repeat constructor.
  - destruct (syndication_endpoints fixed_host [] [Ok payload_A_photo])
      as (_ & H2 & _); [constructor|].
    split; [|exact H2].
    destruct (syndication_result fixed_host payload_A_photo) as [r|] eqn:Er;
      [|discriminate Er].
    pose proof (H1 _ _ Er) as H. cbn [app] in H. rewrite H.
    vm_compute in Er. injection Er as <-. reflexivity.
Defined.

Lemma video_item_A_type (v : SynVideo.t) :
  MediaItem.type (video_item_A v) = video.
Proof.
  unfold video_item_A.
  destruct (SynVideo.variants v) as [vs|]; [|reflexivity].
  now destruct (sort by_pixels _).
Qed.

Lemma gif_item_A_type (g : SynVideo.t) :
  MediaItem.type (gif_item_A g) = gif.
Proof.
  unfold gif_item_A.
  destruct (SynVideo.variants g) as [vs|]; [|reflexivity].
  now destruct (sort by_pixels _).
Qed.

Lemma photo_items_A (ps : list SynPhoto.t) :
  map MediaItem.type (map photo_item_A ps) = repeat photo (List.length ps) /\
  filter (fun item => match MediaItem.type item with
                      | photo => true
                      | _ => false
                      end)
         (map photo_item_A ps)
  = map photo_item_A ps.
Proof.
  induction ps as [|e ps [IH1 IH2]]; [split; reflexivity|].
  cbn [map List.length repeat filter photo_item_A MediaItem.type].
  fold (photo_item_A e). now rewrite IH1, IH2.
Qed.

(** X10: a result of source A has its photos first, as many as the
    payload has and in its order, then a video if the payload has one,
    then a gif if it has one. It is without media exactly when the payload
    has an empty array of photos and neither a video nor a gif, and
    neither the name nor the handle of its user is empty. *)
Theorem syndication_result_layout
  (host : Host) (data : SynData.t) (result : Result.t) :
  syndication_result host data = Some result ->
  map MediaItem.type (Result.media result)
  = (repeat photo
            (List.length match SynData.photos data with
                         | Some ps => ps
                         | None => []
                         end)
     ++ match SynData.video data with
        | Some _ => [video]
        | None => []
        end
     ++ match SynData.animated_gif data with
        | Some _ => [gif]
        | None => []
        end)%list /\
  filter (fun item => match MediaItem.type item with
                      | photo => true
                      | _ => false
                      end)
         (Result.media result)
  = map photo_item_A match SynData.photos data with
                     | Some ps => ps
                     | None => []
                     end /\
  (has_media (Some result) = false <->
   SynData.photos data = Some [] /\ SynData.video data = None /\
   SynData.animated_gif data = None) /\
  User.name (Result.user result) <> EmptyString /\
  User.screen_name (Result.user result) <> EmptyString.
Proof.
  unfold syndication_result. intros H.
  assert (E : Result.media result
              = (map photo_item_A match SynData.photos data with
                                  | Some ps => ps
                                  | None => []
                                  end
                 ++ match SynData.video data with
                    | Some v => [video_item_A v]
                    | None => []
                    end
                 ++ match SynData.animated_gif data with
                    | Some g => [gif_item_A g]
                    | None => []
                    end)%list /\
              User.name (Result.user result) <> EmptyString /\
              User.screen_name (Result.user result) <> EmptyString).
  { destruct (SynData.photos data), (SynData.video data),
      (SynData.animated_gif data); try discriminate H;
      injection H as <-;
      cbn [Result.media Result.user User.name User.screen_name];
      (split; [reflexivity|]);
      split; apply RankerFacts.or_default_nonempty; discriminate. }
  destruct E as (Em & Hn & Hs).
  split; [|split; [|split; [|split; assumption]]].
  - rewrite Em, !map_app.
    rewrite (proj1 (photo_items_A _)).
    destruct (SynData.video data) as [v|],
      (SynData.animated_gif data) as [g|];
      cbn [map]; rewrite ?video_item_A_type, ?gif_item_A_type; reflexivity.
  - rewrite Em, !filter_app.
    rewrite (proj2 (photo_items_A _)).
    destruct (SynData.video data) as [v|],
      (SynData.animated_gif data) as [g|];
      cbn [filter]; rewrite ?video_item_A_type, ?gif_item_A_type;
      cbn [app]; now rewrite ?app_nil_r.
  - cbn [has_media]. rewrite Em.
    destruct (SynData.photos data) as [[|e ps]|],
      (SynData.video data) as [v|],
      (SynData.animated_gif data) as [g|];
      try discriminate H; cbn [map app];
      (split; [intros Hf; try discriminate Hf; auto
              |intros (H1 & H2 & H3);
               try discriminate H1; try discriminate H2;
               try discriminate H3; reflexivity]).
Qed.

(** An instance: a payload with two photos, a video and a gif. *)
Lemma syndication_result_layout_witness :
  match syndication_result fixed_host payload_A_mixed with
  | Some result =>
      map MediaItem.type (Result.media result) = [photo; photo; video; gif]
  | None => False
  end.
Proof.
  destruct (syndication_result fixed_host payload_A_mixed) as [r|] eqn:E;
    [|discriminate E].
  destruct (syndication_result_layout fixed_host payload_A_mixed r E)
    as (Ht & _).
  exact Ht.
Defined.

Lemma variant_A_shape (size : string) (x : SynVariant.t) :
  Variant.url (variant_A size x) = SynVariant.src x /\
  Variant.content_type (variant_A size x) <> None /\
  Variant.quality (variant_A size x)
  = getQualityFromResolution (Some (Variant.resolution (variant_A size x))).
Proof. unfold variant_A. cbn. repeat split. discriminate. Qed.

Lemma video_item_A_anatomy (v : SynVideo.t) :
  Forall (fun x => truthy (Variant.url x) = true /\
                   Variant.content_type x <> None /\
                   Variant.quality x
                   = getQualityFromResolution (Some (Variant.resolution x)))
         (MediaItem.variants (video_item_A v)) /\
  StronglySorted (descending pixels) (MediaItem.variants (video_item_A v)) /\
  List.length (MediaItem.variants (video_item_A v))
  = List.length
      (filter (fun x => is_mp4 x && truthy (SynVariant.src x))
              match SynVideo.variants v with Some vs => vs | None => [] end)
  /\
  match MediaItem.variants (video_item_A v) with
  | first :: _ =>
      MediaItem.url (video_item_A v) = Variant.url first /\
      MediaItem.download_url (video_item_A v) = Variant.url first /\
      MediaItem.best_quality (video_item_A v)
      = Some (Variant.quality first)
  | [] =>
      MediaItem.url (video_item_A v) = None /\
      MediaItem.download_url (video_item_A v) = None /\
      MediaItem.best_quality (video_item_A v) = None
  end.
Proof.
  unfold video_item_A.
  destruct (SynVideo.variants v) as [vs|].
  - set (size := render (SynVideo.width v) ++ "x"
                 ++ render (SynVideo.height v)).
    set (kept := filter (fun x => is_mp4 x && truthy (SynVariant.src x)) vs).
    assert (HF : Forall (fun x => truthy (Variant.url x) = true /\
                   Variant.content_type x <> None /\
                   Variant.quality x
                   = getQualityFromResolution
                       (Some (Variant.resolution x)))
                  (sort by_pixels (map (variant_A size) kept))).
    { apply sort_Forall. rewrite Forall_forall. intros x Hx.
      apply in_map_iff in Hx. destruct Hx as (y & <- & Hy).
      apply filter_In in Hy. destruct Hy as [_ Hy].
      apply andb_true_iff in Hy. destruct Hy as [_ Hsrc].
      destruct (variant_A_shape size y) as (-> & ? & ?). auto. }
    assert (HS : StronglySorted (descending pixels)
                   (sort by_pixels (map (variant_A size) kept)))
      by apply sort_sorted, by_pixels_key.
    assert (HL : List.length (sort by_pixels (map (variant_A size) kept))
                 = List.length kept)
      by now rewrite (sort_length by_pixels), length_map.
    destruct (sort by_pixels (map (variant_A size) kept)) as [|f r];
      cbn [MediaItem.variants MediaItem.url MediaItem.download_url
           MediaItem.best_quality]; repeat split; assumption.
  - cbn [MediaItem.variants MediaItem.url MediaItem.download_url
         MediaItem.best_quality filter List.length].
    repeat split; constructor.
Qed.

(** X11: the variants of the video item of source A are the renditions
    of type video/mp4 that have a locator, each made into a variant, and
    no others, rearranged in order of non-increasing pixel area; each
    variant has a locator, a content type and the tier of its own
    resolution; the item takes its locator, download locator and best
    quality from the first variant, and has none of the three when no
    rendition is kept. *)
Theorem syndication_video_variants (v : SynVideo.t) :
  Permutation
    (map (variant_A (render (SynVideo.width v) ++ "x"
                     ++ render (SynVideo.height v)))
         (filter (fun x => is_mp4 x && truthy (SynVariant.src x))
                 match SynVideo.variants v with
                 | Some vs => vs
                 | None => []
                 end))
    (MediaItem.variants (video_item_A v)) /\
  Forall (fun x => truthy (Variant.url x) = true /\
                   Variant.content_type x <> None /\
                   Variant.quality x
                   = getQualityFromResolution (Some (Variant.resolution x)))
         (MediaItem.variants (video_item_A v)) /\
  StronglySorted (descending pixels) (MediaItem.variants (video_item_A v)) /\
  match MediaItem.variants (video_item_A v) with
  | first :: _ =>
      MediaItem.url (video_item_A v) = Variant.url first /\
      MediaItem.download_url (video_item_A v) = Variant.url first /\
      MediaItem.best_quality (video_item_A v)
      = Some (Variant.quality first)
  | [] =>
      MediaItem.url (video_item_A v) = None /\
      MediaItem.download_url (video_item_A v) = None /\
      MediaItem.best_quality (video_item_A v) = None
  end.
Proof.
  destruct (video_item_A_anatomy v) as (HF & HS & _ & HP).
  split; [|repeat split; assumption].
  unfold video_item_A.
  destruct (SynVideo.variants v) as [vs|]; [|constructor].
  pose proof (sort_perm by_pixels
                (map (variant_A (render (SynVideo.width v) ++ "x"
                                 ++ render (SynVideo.height v)))
                     (filter (fun x => is_mp4 x
                                       && truthy (SynVariant.src x)) vs)))
    as Hperm.
  destruct (sort by_pixels _) as [|f r]; exact Hperm.
Qed.

(** Ranking an item whose variants are in order. *)
Lemma enhance_sorted (item : MediaItem.t) :
  MediaItem.type item <> photo ->
  MediaItem.variants item <> [] ->
  StronglySorted (descending pixels) (MediaItem.variants item) ->
  exists first rest,
    MediaItem.variants item = first :: rest /\
    MediaItem.variants (enhance item) = first :: rest /\
    MediaItem.url (enhance item) = Variant.url first /\
    MediaItem.download_url (enhance item) = Variant.url first /\
    MediaItem.best_quality (enhance item) = Some (Variant.quality first).
Proof.
  intros Hty Hvs Hs.
  destruct (enhance_ranked item Hty) as (f & r & E & ->).
  unfold raw_variants in E.
  destruct (MediaItem.variants item) as [|v vs] eqn:Ev; [congruence|].
  rewrite (sort_fixed pixels by_pixels by_pixels_key _ Hs) in E.
  injection E as <- <-. exists v, vs. repeat split.
Qed.

(** X12: the ranker of the handler changes nothing in the order the
    extractor gave to the variants of a video or gif of source A, nor in
    its locators; it adds the two available lists, and for a gif the best
    quality. *)
Theorem syndication_items_already_ranked (v : SynVideo.t) :
  (MediaItem.variants (video_item_A v) <> [] ->
     MediaItem.variants (enhance (video_item_A v))
     = MediaItem.variants (video_item_A v) /\
     MediaItem.url (enhance (video_item_A v))
     = MediaItem.url (video_item_A v) /\
     MediaItem.download_url (enhance (video_item_A v))
     = MediaItem.download_url (video_item_A v) /\
     MediaItem.best_quality (enhance (video_item_A v))
     = MediaItem.best_quality (video_item_A v)) /\
  (MediaItem.variants (gif_item_A v) <> [] ->
     MediaItem.variants (enhance (gif_item_A v))
     = MediaItem.variants (gif_item_A v) /\
     MediaItem.url (enhance (gif_item_A v))
     = MediaItem.url (gif_item_A v) /\
     MediaItem.download_url (enhance (gif_item_A v))
     = MediaItem.download_url (gif_item_A v) /\
     MediaItem.best_quality (gif_item_A v) = None /\
     MediaItem.best_quality (enhance (gif_item_A v)) <> None).
Proof.
  split.
  - intros Hne.
    destruct (video_item_A_anatomy v) as (_ & Hs & _ & Hf).
    assert (Hty : MediaItem.type (video_item_A v) <> photo).
    { unfold video_item_A. destruct (SynVideo.variants v) as [vs|];
        [destruct (sort by_pixels _)|]; discriminate. }
    destruct (enhance_sorted (video_item_A v) Hty Hne Hs)
      as (f & r & Ev & -> & -> & -> & ->).
    rewrite Ev in Hf. destruct Hf as (-> & -> & ->). now rewrite Ev.
  - intros Hne.
    assert (Hs : StronglySorted (descending pixels)
                   (MediaItem.variants (gif_item_A v))).
    { unfold gif_item_A. destruct (SynVideo.variants v) as [vs|].
      - pose proof (sort_sorted pixels by_pixels by_pixels_key
                      (map (variant_A
                              (render (SynVideo.width v) ++ "x"
                               ++ render (SynVideo.height v)))
                           (filter is_mp4 vs))) as H.
        destruct (sort by_pixels _); exact H.
      - constructor. }
    assert (Hty : MediaItem.type (gif_item_A v) <> photo).
    { unfold gif_item_A. destruct (SynVideo.variants v) as [vs|];
        [destruct (sort by_pixels _)|]; discriminate. }
    destruct (enhance_sorted (gif_item_A v) Hty Hne Hs)
      as (f & r & Ev & -> & -> & -> & ->).
    revert Ev. unfold gif_item_A.
    destruct (SynVideo.variants v) as [vs|];
      [destruct (sort by_pixels _) as [|f0 r0]|];
      cbn [MediaItem.variants MediaItem.url MediaItem.download_url
           MediaItem.best_quality];
      intros [= <- <-].
    repeat split. discriminate.
Qed.

(** An instance: the sample video of source A. *)
Lemma syndication_items_already_ranked_witness :
  MediaItem.variants (enhance sample_video_A)
  = MediaItem.variants sample_video_A /\
  MediaItem.url (enhance sample_video_A) = MediaItem.url sample_video_A.
Proof.
  destruct (syndication_items_already_ranked sample_video) as [H _].
  destruct H as (Hv & Hu & _).
  - vm_compute. discriminate.
  - split; [exact Hv|exact Hu].
Defined.

Lemma video_item_B_shape (k : kind) (media : FxMedia.t) :
  k <> photo ->
  MediaItem.url (video_item_B k media) = FxMedia.url media /\
  MediaItem.download_url (video_item_B k media)
  = MediaItem.url (video_item_B k media) /\
  (exists v,
     MediaItem.variants (video_item_B k media) = [v] /\
     Variant.url v = MediaItem.url (video_item_B k media) /\
     parseResolution (Some (Variant.resolution v))
     = Resolution.make (or_0 (FxMedia.width media))
                       (or_0 (FxMedia.height media))) /\
  primary_is_first (video_item_B k media) /\
  MediaItem.url (enhance (video_item_B k media))
  = MediaItem.url (video_item_B k media).
Proof.
  intros Hk.
  assert (He : MediaItem.url (enhance (video_item_B k media))
               = MediaItem.url (video_item_B k media)).
  { destruct (enhance_sorted (video_item_B k media))
      as (f & r & Ev & _ & -> & _);
      [exact Hk|discriminate|repeat constructor|].
    now injection Ev as <- <-. }
  repeat split; try exact He.
  eexists. repeat split. apply LabelFacts.size_label_parses.
Qed.

(** X13: every item of source B has a locator and exactly one variant,
    which carries that locator and the size label of the entry; the
    primary locator is the locator of the first variant, for photos too,
    and the ranker leaves it as it is.  An entry of another kind, or
    without a locator, gives no item. *)
Theorem fxtwitter_items_single_variant
  (media : FxMedia.t) (item : MediaItem.t) :
  item_B media = Some item ->
  truthy (MediaItem.url item) = true /\
  MediaItem.url item = FxMedia.url media /\
  MediaItem.download_url item = MediaItem.url item /\
  (exists v,
     MediaItem.variants item = [v] /\
     Variant.url v = MediaItem.url item /\
     parseResolution (Some (Variant.resolution v))
     = Resolution.make (or_0 (FxMedia.width media))
                       (or_0 (FxMedia.height media))) /\
  primary_is_first item /\
  MediaItem.url (enhance item) = MediaItem.url item /\
  (MediaItem.type item = photo <-> FxMedia.type media = "photo").
Proof.
  unfold item_B.
  destruct (truthy (FxMedia.url media)) eqn:Et;
    [|rewrite !andb_false_r; discriminate].
  rewrite !andb_true_r.
  destruct (String.eqb_spec (FxMedia.type media) "photo") as [Ep|Ep].
  - intros [= <-]. unfold photo_item_B, primary_is_first.
    cbn. repeat split; auto.
    eexists. repeat split. apply LabelFacts.size_label_parses.
  - assert (Hshape : forall k, k <> photo ->
              Some (video_item_B k media) = Some item ->
              truthy (MediaItem.url item) = true /\
              MediaItem.url item = FxMedia.url media /\
              MediaItem.download_url item = MediaItem.url item /\
              (exists v,
                 MediaItem.variants item = [v] /\
                 Variant.url v = MediaItem.url item /\
                 parseResolution (Some (Variant.resolution v))
                 = Resolution.make (or_0 (FxMedia.width media))
                                   (or_0 (FxMedia.height media))) /\
              primary_is_first item /\
              MediaItem.url (enhance item) = MediaItem.url item /\
              (MediaItem.type item = photo <->
               FxMedia.type media = "photo")).
    { intros k Hk [= <-].
      destruct (video_item_B_shape k media Hk) as (Hu & Hd & Hv & Hp & He).
      repeat split; try assumption.
      - intros H. now elim Hk.
      - intros H. now elim Ep. }
    destruct (String.eqb (FxMedia.type media) "video");
      [apply Hshape; discriminate|].
    destruct (String.eqb (FxMedia.type media) "gif");
      [apply Hshape; discriminate|discriminate].
Qed.

(** An instance: the sample video of source B. *)
Lemma fxtwitter_items_single_variant_witness :
  primary_is_first sample_video_B /\
  MediaItem.url (enhance sample_video_B) = MediaItem.url sample_video_B.
Proof.
  destruct (fxtwitter_items_single_variant
              (FxMedia.make "video" (Some "https://video.twimg.com/v.mp4")
                            None None (Some 1280) (Some 720))
              sample_video_B eq_refl)
    as (_ & _ & _ & _ & Hp & Hu & _).
  split; [exact Hp|exact Hu].
Defined.

End ExtractorFacts.

(** ** The unstructured extractor *)

Module ScrapingFacts.
Import JS Twitter Spec SortFacts RankerFacts LabelFacts.

Lemma strip_prefix_sound (p s rest : string) :
  strip_prefix p s = Some rest -> s = p ++ rest.
Proof.
  revert s. induction p as [|a p IH]; intros s; simpl.
  - now intros [= ->].
  - destruct s as [|b s]; [discriminate|].
    destruct (Ascii.eqb_spec a b) as [->|_]; [|discriminate].
    intros H. now rewrite (IH _ H).
Qed.

Lemma take_while_split (f : ascii -> bool) (s run rest : string) :
  take_while f s = (run, rest) -> s = run ++ rest /\ every f run = true.
Proof.
  revert run rest. induction s as [|c s IH]; intros run rest; simpl.
  - intros [= <- <-]. split; reflexivity.
  - destruct (f c) eqn:Ec.
    + destruct (take_while f s) as [t r]. intros [= <- <-].
      destruct (IH _ _ eq_refl) as [-> Ht]. split; [reflexivity|].
      simpl. now rewrite Ec.
    + intros [= <- <-]. split; reflexivity.
Qed.

Lemma every_append (f : ascii -> bool) (a b : string) :
  every f (a ++ b) = every f a && every f b.
Proof.
  induction a as [|c a IH]; simpl; [reflexivity|].
  now rewrite IH, andb_assoc.
Qed.

Lemma upto_last_mp4_sound (run t : string) :
  upto_last_mp4 run = Some t ->
  ends_with ".mp4" t /\ exists u, run = t ++ u.
Proof.
  revert t. induction run as [|c run IH]; intros t; [discriminate|].
  cbn [upto_last_mp4].
  destruct (upto_last_mp4 run) as [t'|].
  - intros [= <-]. destruct (IH t' eq_refl) as [(a & ->) (u & ->)].
    split; [now exists (String c a)|now exists u].
  - destruct (strip_prefix ".mp4" (String c run)) as [rest|] eqn:E;
      [|discriminate].
    intros [= <-]. apply strip_prefix_sound in E.
    split; [now exists EmptyString|now exists rest].
Qed.

Lemma ends_with_append (p a t : string) :
  ends_with p t -> ends_with p (a ++ t).
Proof. intros (u & ->). exists (a ++ u). now rewrite append_assoc. Qed.

Lemma digit_is_url_char (c : ascii) :
  is_digit c = true -> url_char c = true.
Proof.
  destruct c as [[] [] [] [] [] [] [] []]; intros H;
    try discriminate H; reflexivity.
Qed.

Lemma digits_are_url_chars (d : string) :
  all_digits d = true -> every url_char d = true.
Proof.
  induction d as [|c d IH]; simpl; [reflexivity|].
  intros H. apply andb_true_iff in H. destruct H as [Hc Hd].
  now rewrite (digit_is_url_char c Hc), (IH Hd).
Qed.

Lemma mp4_chars (t : string) :
  ends_with ".mp4" t -> t <> EmptyString.
Proof. intros (u & ->). destruct u; discriminate. Qed.

Lemma match_literal_sound (literal s m : string) :
  every url_char literal = true ->
  match_literal literal s = Some m ->
  starts_with literal m /\ ends_with ".mp4" m /\
  every url_char m = true /\ starts_with m s.
Proof.
  intros Hl. unfold match_literal.
  destruct (strip_prefix literal s) as [rest|] eqn:E; [|discriminate].
  apply strip_prefix_sound in E. subst s.
  destruct (take_while url_char rest) as [run rest'] eqn:Er.
  destruct (take_while_split _ _ _ _ Er) as [-> Hrun].
  cbn [fst]. destruct (upto_last_mp4 run) as [t|] eqn:Et; [|discriminate].
  destruct (upto_last_mp4_sound _ _ Et) as [Hmp4 (u & ->)].
  intros [= <-]. rewrite every_append in Hrun.
  apply andb_true_iff in Hrun. destruct Hrun as [Ht _].
  repeat split.
  - now exists t.
  - now apply ends_with_append.
  - now rewrite every_append, Hl, Ht.
  - exists (u ++ rest'). now rewrite !append_assoc.
Qed.

Lemma match_numbered_sound (literal s m : string) :
  every url_char literal = true ->
  match_numbered literal s = Some m ->
  starts_with literal m /\ ends_with ".mp4" m /\
  every url_char m = true /\ starts_with m s.
Proof.
  intros Hl. unfold match_numbered.
  destruct (strip_prefix literal s) as [rest|] eqn:E; [|discriminate].
  apply strip_prefix_sound in E. subst s.
  destruct (take_digits rest) as [d r1] eqn:Ed.
  destruct (HandlerFacts.take_digits_split _ _ _ Ed) as [-> Hd].
  destruct d as [|cd d]; [discriminate|].
  destruct r1 as [|x r]; [discriminate|].
  destruct (Ascii.eqb_spec x "/") as [->|Hx];
    [|destruct x as [[] [] [] [] [] [] [] []];
      try discriminate; now elim Hx].
  destruct (take_while url_char r) as [run rest'] eqn:Er.
  destruct (take_while_split _ _ _ _ Er) as [-> Hrun].
  cbn [fst]. destruct (upto_last_mp4 run) as [t|] eqn:Et; [|discriminate].
  destruct (upto_last_mp4_sound _ _ Et) as [Hmp4 (u & ->)].
  intros [= <-]. rewrite every_append in Hrun.
  apply andb_true_iff in Hrun. destruct Hrun as [Ht _].
  split; [now eexists|].
  split.
  { destruct Hmp4 as (a & ->).
    exists (literal ++ String cd d ++ "/" ++ a).
    rewrite !append_assoc. cbn [append]. now rewrite ?append_assoc. }
  split.
  { change (every url_char (literal ++ String cd d ++ String "/" t)
            = true).
    rewrite !every_append, Hl, (digits_are_url_chars _ Hd).
    cbn [andb every]. exact Ht. }
  exists (u ++ rest'). rewrite !append_assoc. cbn [append].
  now rewrite ?append_assoc.
Qed.

Lemma starts_with_cdn (literal tail m : string) :
  literal = cdn ++ tail -> starts_with literal m -> starts_with cdn m.
Proof.
  intros -> (t & ->). exists (tail ++ t). now rewrite append_assoc.
Qed.

(** Whatever one of the four patterns matches is a locator on the CDN,
    and stands at the head of the text it was tried on. *)
Lemma pattern_sound (pattern : string -> option string) (s m : string) :
  In pattern videoPatterns -> pattern s = Some m ->
  is_locator m /\ starts_with m s.
Proof.
  unfold videoPatterns, is_locator.
  intros [<-|[<-|[<-|[<-|[]]]]] H.
  - destruct (match_literal_sound cdn _ _ eq_refl H) as (? & ? & ? & ?).
    auto.
  - destruct (match_numbered_sound (cdn ++ "amplify_video/") _ _ eq_refl H)
      as (Hs & ? & ? & ?).
    repeat split; try assumption.
    now apply (starts_with_cdn _ "amplify_video/" _ eq_refl).
  - destruct (match_numbered_sound (cdn ++ "ext_tw_video/") _ _ eq_refl H)
      as (Hs & ? & ? & ?).
    repeat split; try assumption.
    now apply (starts_with_cdn _ "ext_tw_video/" _ eq_refl).
  - destruct (match_literal_sound (cdn ++ "tweet_video/") _ _ eq_refl H)
      as (Hs & ? & ? & ?).
    repeat split; try assumption.
    now apply (starts_with_cdn _ "tweet_video/" _ eq_refl).
Qed.

(** Every match of a scan was found at some position of the page. *)
Lemma scan_sound (pattern : string -> option string) (skip : nat)
  (html m : string) :
  In m (scan pattern skip html) ->
  exists before after, html = before ++ after /\ pattern after = Some m.
Proof.
  revert skip. induction html as [|c html IH]; intros skip; [intros []|].
  cbn [scan].
  assert (Hrec : forall k, In m (scan pattern k html) ->
            exists before after,
              String c html = before ++ after /\ pattern after = Some m).
  { intros k H. destruct (IH k H) as (b & a & -> & Hp).
    now exists (String c b), a. }
  destruct skip as [|k]; [|apply Hrec].
  destruct (pattern (String c html)) as [m'|] eqn:E; [|apply Hrec].
  intros [<-|H]; [|now apply Hrec with (k := (String.length m' - 1)%nat)].
  now exists EmptyString, (String c html).
Qed.

Lemma all_matches_sound (html m : string) :
  In m (all_matches html) -> is_locator m /\ contains m html.
Proof.
  unfold all_matches. intros H. apply in_flat_map in H.
  destruct H as (pattern & Hp & Hm).
  destruct (scan_sound _ _ _ _ Hm) as (b & a & -> & Ha).
  destruct (pattern_sound _ _ _ Hp Ha) as [Hloc (t & ->)].
  split; [exact Hloc|]. now exists b, t.
Qed.

Lemma visit_fold (urls : list string) (seen : list string) :
  fold_left visit urls (map variant_C seen, seen)
  = (map variant_C (fold_left (fun s x => set_add x s) urls seen),
     fold_left (fun s x => set_add x s) urls seen).
Proof.
  revert seen. induction urls as [|u urls IH]; intros seen; [reflexivity|].
  cbn [fold_left visit]. rewrite SetFacts.set_add_app.
  destruct (existsb (String.eqb u) seen); [apply IH|].
  rewrite <- IH. f_equal. f_equal. now rewrite map_app.
Qed.

(** The variants extracted from a page are those of the distinct
    matches, in the order in which they are first found. *)
Lemma extracted_are_distinct_matches (html : string) :
  extractAllVideoVariantsFromHTML html
  = map variant_C (distinct (all_matches html)).
Proof.
  unfold extractAllVideoVariantsFromHTML, all_matches.
  rewrite <- SetFacts.new_Set_distinct. unfold new_Set.
  change (([] : list Variant.t), ([] : list string))
    with (map variant_C [], ([] : list string)).
  generalize ([] : list string) as seen.
  induction videoPatterns as [|pattern ps IH]; intros seen;
    [reflexivity|].
  cbn [fold_left flat_map]. rewrite visit_fold, IH.
  now rewrite fold_left_app.
Qed.

Lemma NoDup_map_Some {A : Type} (l : list A) :
  NoDup l -> NoDup (map Some l).
Proof.
  induction 1 as [|x l Hx Hl IH]; cbn [map]; constructor; [|exact IH].
  intros Hin. apply in_map_iff in Hin.
  destruct Hin as (y & [= ->] & Hy). now apply Hx.
Qed.

(** X14: the variants read off a page have pairwise different locators;
    each locator is a piece of the page that starts with the address of
    the CDN, ends with [.mp4] and has neither a quote nor white space in
    it, and the variant is the one built from that locator alone. *)
Theorem extracted_locators (html : string) :
  NoDup (map Variant.url (extractAllVideoVariantsFromHTML html)) /\
  Forall (fun v => exists url,
            v = variant_C url /\ Variant.url v = Some url /\
            is_locator url /\ contains url html)
         (extractAllVideoVariantsFromHTML html).
Proof.
  rewrite extracted_are_distinct_matches. split.
  - rewrite map_map. cbn [variant_C Variant.url].
    apply NoDup_map_Some, SetFacts.distinct_NoDup.
  - rewrite Forall_forall. intros v Hv. apply in_map_iff in Hv.
    destruct Hv as (url & <- & Hin).
    apply (proj1 (SetFacts.distinct_In _ _)) in Hin.
    destruct (all_matches_sound _ _ Hin) as [Hloc Hc].
    exists url. repeat split; try assumption; apply Hloc.
Qed.

Lemma no_match_without_cdn (html : string) :
  ~ contains cdn html \/ ~ contains ".mp4" html ->
  all_matches html = [].
Proof.
  intros H. destruct (all_matches html) as [|m l] eqn:E; [reflexivity|].
  exfalso.
  destruct (all_matches_sound html m) as [(Hs & He & _) (a & b & Hc)];
    [rewrite E; now left|].
  destruct H as [H|H]; apply H.
  - destruct Hs as (t & ->). exists a, (t ++ b).
    now rewrite Hc, append_assoc.
  - destruct He as (t & ->). exists (a ++ t), b.
    now rewrite Hc, !append_assoc.
Qed.

Lemma group_push_perm (key : string) (v : Variant.t)
  (grouped : list (string * list Variant.t)) :
  Permutation (flat_map snd (group_push key v grouped))
              (v :: flat_map snd grouped).
Proof.
  induction grouped as [|[k vs] g IH]; cbn [group_push flat_map snd app].
  - constructor. constructor.
  - destruct (String.eqb key k); cbn [flat_map snd].
    + rewrite <- app_assoc. cbn [app].
      apply Permutation_sym, Permutation_cons_app, Permutation_refl.
    + eapply Permutation_trans; [apply Permutation_app_head, IH|].
      apply Permutation_sym, Permutation_middle.
Qed.

Lemma group_push_keeps (key : string) (v : Variant.t)
  (grouped : list (string * list Variant.t)) :
  videoId v = key ->
  Forall (fun e => snd e <> [] /\
                   Forall (fun x => videoId x = fst e) (snd e)) grouped ->
  Forall (fun e => snd e <> [] /\
                   Forall (fun x => videoId x = fst e) (snd e))
         (group_push key v grouped).
Proof.
  intros Hk. induction 1 as [|[k vs] g [Hne Hvs] Hg IH];
    cbn [group_push].
  - repeat constructor; [discriminate|exact Hk].
  - destruct (String.eqb_spec key k) as [->|Hneq].
    + constructor; [|exact Hg]. cbn [fst snd] in *. split.
      * destruct vs; discriminate.
      * rewrite Forall_app. split; [exact Hvs|]. now repeat constructor.
    + constructor; [now split|exact IH].
Qed.

Lemma grouping (vs : list Variant.t)
  (grouped : list (string * list Variant.t)) :
  Forall (fun e => snd e <> [] /\
                   Forall (fun x => videoId x = fst e) (snd e)) grouped ->
  Forall (fun e => snd e <> [] /\
                   Forall (fun x => videoId x = fst e) (snd e))
         (fold_left (fun g v => group_push (videoId v) v g) vs grouped) /\
  Permutation
    (flat_map snd
       (fold_left (fun g v => group_push (videoId v) v g) vs grouped))
    (flat_map snd grouped ++ vs).
Proof.
  revert grouped. induction vs as [|v vs IH]; intros grouped Hg.
  - cbn [fold_left]. rewrite app_nil_r. split; [exact Hg|reflexivity].
  - cbn [fold_left].
    destruct (IH (group_push (videoId v) v grouped)) as [H1 H2];
      [now apply group_push_keeps|].
    split; [exact H1|].
    eapply Permutation_trans; [exact H2|].
    eapply Permutation_trans;
      [apply Permutation_app_tail, group_push_perm|].
    cbn [app]. apply Permutation_middle.
Qed.

Lemma filter_split {A : Type} (f : A -> bool) (l : list A) :
  Permutation (filter f l ++ filter (fun x => negb (f x)) l) l.
Proof.
  induction l as [|x l IH]; cbn [filter app]; [constructor|].
  destruct (f x); cbn [negb app].
  - now constructor.
  - apply Permutation_sym, Permutation_cons_app, Permutation_sym, IH.
Qed.

(** [Object.values] reorders the values of an object, no more. *)
Lemma Object_values_perm {V : Type} (o : list (string * V)) :
  Permutation (Object_values o) (map snd o).
Proof.
  unfold Object_values. apply Permutation_map.
  eapply Permutation_trans; [|apply (filter_split
                                       (fun e => is_array_index (fst e)))].
  apply Permutation_app_tail, Permutation_sym, sort_perm.
Qed.

Lemma item_C_built (group : list Variant.t) :
  group <> [] ->
  exists first rest,
    sort by_pixels group = first :: rest /\
    item_C group
    = Some (MediaItem.make video
              (Variant.url first) (Variant.url first)
              (Some EmptyString) None None None None (first :: rest)
              (Some (Variant.quality first))
              (Some (new_Set (map Variant.quality (first :: rest))))
              (Some (new_Set (map Variant.resolution (first :: rest))))).
Proof.
  intros Hne. unfold item_C.
  destruct (sort by_pixels group) as [|f r] eqn:E.
  - now apply sort_nonempty in E.
  - now exists f, r.
Qed.

Lemma items_C_perm (groups : list (list Variant.t)) :
  Forall (fun g => g <> []) groups ->
  Permutation (flat_map MediaItem.variants (filter_map item_C groups))
              (concat groups) /\
  List.length (filter_map item_C groups) = List.length groups.
Proof.
  induction 1 as [|g groups Hg Hgs [IH1 IH2]];
    [split; constructor|].
  destruct (item_C_built g Hg) as (f & r & E & Hi).
  cbn [filter_map concat]. rewrite Hi.
  cbn [flat_map MediaItem.variants List.length]. split; [|now rewrite IH2].
  apply Permutation_app; [|exact IH1].
  rewrite <- E. apply Permutation_sym, sort_perm.
Qed.

Lemma concat_map_snd {K V : Type} (o : list (K * list V)) :
  concat (map snd o) = flat_map snd o.
Proof. induction o as [|e o IH]; cbn; [reflexivity|now rewrite IH]. Qed.

Lemma concat_perm {V : Type} (l l' : list (list V)) :
  Permutation l l' -> Permutation (concat l) (concat l').
Proof.
  induction 1 as [|x l l' H IH|x y l|l l' l'' H1 IH1 H2 IH2];
    cbn [concat].
  - constructor.
  - now apply Permutation_app_head.
  - rewrite !app_assoc. apply Permutation_app_tail, Permutation_app_comm.
  - eapply Permutation_trans; eassumption.
Qed.

(** The groups behind a result of source C. *)
Lemma scraping_anatomy (host : Host) (html : string) :
  extractAllVideoVariantsFromHTML html <> [] ->
  exists groups,
    groups <> [] /\
    Forall (fun g => g <> [] /\
                     exists k, Forall (fun v => videoId v = k) g) groups /\
    Permutation (concat groups) (extractAllVideoVariantsFromHTML html) /\
    List.length (filter_map item_C groups) = List.length groups /\
    scraping_outcome host (Ok html)
    = Some (Result.make "api_c"
              (User.make "Unknown" "unknown" EmptyString)
              "Extracted content" (TsText (now host))
              (filter_map item_C groups)).
Proof.
  intros Hne. unfold scraping_outcome.
  remember (extractAllVideoVariantsFromHTML html) as vs eqn:Evs.
  remember (fold_left (fun g v => group_push (videoId v) v g) vs [])
    as G eqn:EG.
  destruct (grouping vs []) as [HG HP]; [constructor|].
  rewrite <- EG in HG, HP. cbn [flat_map app] in HP.
  pose proof (Object_values_perm G) as HO.
  assert (Hgroups : Forall (fun g => g <> [] /\
                      exists k, Forall (fun v => videoId v = k) g)
                           (Object_values G)).
  { rewrite Forall_forall. intros g Hg.
    eapply Permutation_in in Hg; [|exact HO].
    apply in_map_iff in Hg. destruct Hg as ([k g'] & <- & Hin).
    rewrite Forall_forall in HG. destruct (HG _ Hin) as [H1 H2].
    split; [exact H1|now exists k]. }
  assert (Hperm : Permutation (concat (Object_values G)) vs).
  { eapply Permutation_trans; [|exact HP].
    rewrite <- concat_map_snd. now apply concat_perm. }
  assert (Hnn : Object_values G <> []).
  { intros E. rewrite E in Hperm. cbn in Hperm.
    apply Permutation_nil in Hperm. now apply Hne. }
  destruct (items_C_perm (Object_values G)) as [_ Hlen].
  { eapply Forall_impl; [|exact Hgroups]. cbv beta. tauto. }
  exists (Object_values G). repeat split; try assumption.
  destruct vs as [|v vs']; [congruence|]. rewrite <- EG.
  destruct (filter_map item_C (Object_values G)) as [|i l] eqn:Ei;
    [|reflexivity].
  exfalso. apply Hnn, length_zero_iff_nil. now rewrite <- Hlen.
Qed.

(** X15: source C resolves to [null] exactly when it has no page (an
    exception or a response that is not ok) or no pattern matches the
    page; so it does for every page without the address of the CDN or
    without [.mp4]. *)
Theorem scraping_null (host : Host) :
  scraping_outcome host Throws = None /\
  scraping_outcome host NotOk = None /\
  forall html,
    (scraping_outcome host (Ok html) = None <->
     extractAllVideoVariantsFromHTML html = []) /\
    (~ contains cdn html \/ ~ contains ".mp4" html ->
     scraping_outcome host (Ok html) = None).
Proof.
  split; [reflexivity|]. split; [reflexivity|]. intros html.
  assert (H : extractAllVideoVariantsFromHTML html = [] ->
              scraping_outcome host (Ok html) = None).
  { intros E. unfold scraping_outcome. now rewrite E. }
  split; [split; [|exact H]|].
  - intros Hnone.
    destruct (extractAllVideoVariantsFromHTML html) as [|v vs] eqn:E;
      [reflexivity|].
    destruct (scraping_anatomy host html) as (g & _ & _ & _ & _ & Hs);
      [rewrite E; discriminate|congruence].
  - intros Hc. apply H. rewrite extracted_are_distinct_matches.
    now rewrite (no_match_without_cdn html Hc).
Qed.

(** An instance: a page that links to another host. *)
Lemma scraping_null_witness :
  scraping_outcome fixed_host
    (Ok "<video src='https://example.com/a.mp4'>") = None.
Proof.
  destruct (scraping_null fixed_host) as (_ & _ & H).
  apply (proj2 (proj1 (H "<video src='https://example.com/a.mp4'>"))).
  vm_compute. reflexivity.
Defined.

(** X16: a result of source C has at least one item, and its items
    share out the variants read off the page: every variant is in exactly
    one item.  Each item is a video with at least one variant, its
    variants in order of non-increasing pixel area and all of one video
    id, and with the locator, download locator and best quality of its
    first variant. *)
Theorem scraping_result_shape
  (host : Host) (html : string) (result : Result.t) :
  scraping_outcome host (Ok html) = Some result ->
  Result.method result = "api_c" /\
  Result.media result <> [] /\
  Permutation (flat_map MediaItem.variants (Result.media result))
              (extractAllVideoVariantsFromHTML html) /\
  Forall (fun item =>
            MediaItem.type item = video /\
            exists first rest,
              MediaItem.variants item = first :: rest /\
              StronglySorted (descending pixels) (first :: rest) /\
              Forall (fun v => videoId v = videoId first) rest /\
              MediaItem.url item = Variant.url first /\
              MediaItem.download_url item = Variant.url first /\
              MediaItem.best_quality item = Some (Variant.quality first))
         (Result.media result).
Proof.
  intros Hr.
  assert (Hne : extractAllVideoVariantsFromHTML html <> []).
  { intros E. unfold scraping_outcome in Hr. rewrite E in Hr.
    discriminate. }
  destruct (scraping_anatomy host html Hne)
    as (groups & Hg & HF & HP & HL & Hs).
  rewrite Hs in Hr. injection Hr as <-. cbn [Result.method Result.media].
  split; [reflexivity|]. split.
  { intros E. apply Hg, length_zero_iff_nil. now rewrite <- HL, E. }
  split.
  { eapply Permutation_trans; [|exact HP].
    apply items_C_perm. eapply Forall_impl; [|exact HF]. cbv beta. tauto. }
  rewrite Forall_forall. intros item Hin.
  apply filter_map_In in Hin. destruct Hin as (g & Hin & Hi).
  rewrite Forall_forall in HF. destruct (HF g Hin) as [Hgne (k & Hk)].
  destruct (item_C_built g Hgne) as (f & r & E & Hi').
  rewrite Hi' in Hi. injection Hi as <-.
  cbn [MediaItem.type MediaItem.variants MediaItem.url
       MediaItem.download_url MediaItem.best_quality].
  split; [reflexivity|]. exists f, r.
  assert (Hk' : Forall (fun v => videoId v = k) (f :: r)).
  { rewrite <- E. now apply sort_Forall. }
  repeat split.
  - rewrite <- E. apply sort_sorted, by_pixels_key.
  - inversion Hk' as [|? ? Hf Hrest]; subst.
    eapply Forall_impl; [|exact Hrest]. cbv beta. intros v Hv.
    now rewrite Hv.
Qed.

(** An instance: the sample page. *)
Lemma scraping_result_shape_witness :
  match scraping_outcome fixed_host (Ok sample_page) with
  | Some result =>
      Result.media result <> [] /\
      Permutation (flat_map MediaItem.variants (Result.media result))
                  (extractAllVideoVariantsFromHTML sample_page)
  | None => False
  end.
Proof.
  destruct (scraping_outcome fixed_host (Ok sample_page)) as [r|] eqn:E;
    [|vm_compute in E; discriminate E].
  destruct (scraping_result_shape fixed_host sample_page r E)
    as (_ & Hm & Hp & _).
  split; [exact Hm|exact Hp].
Defined.

(** The sample page gives two items for three locators: the renditions
    of video 123, larger first, and the rendition outside a group. *)
Example scraping_sample :
  option_map (fun r => map (fun i => map Variant.resolution
                                         (MediaItem.variants i))
                           (Result.media r))
             (scraping_outcome fixed_host (Ok sample_page))
  = Some [["1280x720"; "640x360"]; ["unknown"]].
Proof. vm_compute. reflexivity. Qed.

Lemma variant_C_labels (url : string) :
  Variant.quality (variant_C url) <> EmptyString /\
  Variant.resolution (variant_C url) <> EmptyString.
Proof.
  unfold variant_C. cbn [Variant.quality Variant.resolution]. split.
  - apply getQualityFromResolution_nonempty.
  - destruct (search_resolution url) as [r|] eqn:E; [|discriminate].
    destruct (search_resolution_sound _ _ E) as (w & h & -> & Hw & _).
    destruct w; [congruence|discriminate].
Qed.

Lemma scraping_items (host : Host) (r : reply string) (result : Result.t) :
  scraping_outcome host r = Some result ->
  Forall extractor_item (Result.media result).
Proof.
  destruct r as [| |html]; try discriminate. intros Hr.
  assert (Hne : extractAllVideoVariantsFromHTML html <> []).
  { intros E. unfold scraping_outcome in Hr. rewrite E in Hr.
    discriminate. }
  destruct (scraping_anatomy host html Hne)
    as (groups & Hg & HF & HP & HL & Hs).
  rewrite Hs in Hr. injection Hr as <-. cbn [Result.media].
  rewrite Forall_forall. intros item Hin.
  apply filter_map_In in Hin. destruct Hin as (g & Hin & Hi).
  rewrite Forall_forall in HF. destruct (HF g Hin) as [Hgne _].
  destruct (item_C_built g Hgne) as (f & r & E & Hi').
  rewrite Hi' in Hi. injection Hi as <-.
  unfold extractor_item. cbn [MediaItem.type MediaItem.variants].
  split; [discriminate|].
  rewrite <- E. apply sort_Forall. rewrite Forall_forall. intros v Hv.
  assert (Hall : In v (extractAllVideoVariantsFromHTML html)).
  { eapply Permutation_in; [exact HP|].
    apply in_concat. now exists g. }
  rewrite extracted_are_distinct_matches in Hall.
  apply in_map_iff in Hall. destruct Hall as (url & <- & _).
  apply variant_C_labels.
Qed.

Lemma syndication_outcome_items (host : Host)
  (replies : list (reply SynData.t)) (result : Result.t) :
  syndication_outcome host replies = Some result ->
  Forall extractor_item (Result.media result).
Proof.
  induction replies as [|[| |data] replies IH]; cbn [syndication_outcome];
    try discriminate; try exact IH.
  destruct (syndication_result host data) as [r|] eqn:E; [|exact IH].
  intros [= <-]. eapply syndication_items, E.
Qed.

(** X17: whatever the three upstream services reply, every item that an
    extractor hands to the handler is built as the ranker expects: a
    photo carries no ranking field, and no variant has an empty quality
    or resolution label. *)
Theorem upstream_items
  (host : Host) (u : Upstream) (e : extractor) (tweetId : string)
  (result : Result.t) :
  network_of host u e tweetId = Some result ->
  Forall extractor_item (Result.media result).
Proof.
  destruct e; cbn [network_of].
  - apply syndication_outcome_items.
  - apply fxtwitter_items.
  - apply scraping_items.
Qed.

(** An instance: the page of the sample upstream. *)
Lemma upstream_items_witness :
  match network_of fixed_host sample_upstream fetchViaHTMLScraping
                   "1234567890123" with
  | Some result => Forall extractor_item (Result.media result)
  | None => False
  end.
Proof.
  destruct (network_of fixed_host sample_upstream fetchViaHTMLScraping
                       "1234567890123") as [r|] eqn:E;
    [|vm_compute in E; discriminate E].
  exact (upstream_items fixed_host sample_upstream
           fetchViaHTMLScraping "1234567890123" r E).
Defined.

End ScrapingFacts.

(** ** The download summary *)

Module SummaryFacts.
Import JS Twitter Spec SortFacts LabelFacts.

Lemma known_label (q : string) :
  known q = true -> q <> EmptyString /\ q <> "unknown".
Proof.
  unfold known. intros H. apply andb_true_iff in H. destruct H as [Ht Hu].
  split.
  - intros ->. discriminate Ht.
  - intros ->. discriminate Hu.
Qed.

Lemma sorted_known_In (cmp : string -> string -> Z) (l : list string)
  (q : string) :
  In q (sort cmp (new_Set (filter known l))) <-> known q = true /\ In q l.
Proof.
  rewrite SetFacts.new_Set_distinct. split.
  - intros H. eapply Permutation_in in H;
      [|apply Permutation_sym, sort_perm].
    apply (proj1 (SetFacts.distinct_In _ _)), filter_In in H. tauto.
  - intros [Hk Hin]. eapply Permutation_in; [apply sort_perm|].
    apply SetFacts.distinct_In, filter_In. tauto.
Qed.

(** X18: in the download summary the qualities are in order of
    non-increasing tier rank and the resolutions in order of
    non-increasing pixel area; the highest quality is the first of the
    qualities, no quality listed ranks above it, and it is "unknown"
    exactly when no quality is listed. *)
Theorem summary_highest_quality
  (host : Host) (mediaData : Result.t) (tweetId : string)
  (info : DownloadInfo.t) :
  generateDownloadInfo host mediaData tweetId = Some info ->
  StronglySorted (descending qualityOrder)
                 (DownloadInfo.available_qualities info) /\
  StronglySorted (descending label_pixels)
                 (DownloadInfo.available_resolutions info) /\
  (forall q, In q (DownloadInfo.available_qualities info) ->
             qualityOrder q
             <= qualityOrder (DownloadInfo.highest_quality info)) /\
  (DownloadInfo.available_qualities info = [] <->
   DownloadInfo.highest_quality info = "unknown") /\
  (DownloadInfo.available_qualities info <> [] ->
   hd_error (DownloadInfo.available_qualities info)
   = Some (DownloadInfo.highest_quality info)).
Proof.
  unfold generateDownloadInfo.
  destruct (date_iso host (Result.created_at mediaData)); [|discriminate].
  intros [= <-].
  cbn [DownloadInfo.available_qualities DownloadInfo.available_resolutions
       DownloadInfo.highest_quality].
  set (qs := sort (fun a b => qualityOrder b - qualityOrder a)
                  (new_Set (filter known
                     (map Variant.quality
                        (flat_map MediaItem.variants
                                  (Result.media mediaData)))))).
  assert (Hs : StronglySorted (descending qualityOrder) qs)
    by (apply sort_sorted; reflexivity).
  assert (Hk : forall q, In q qs -> known q = true)
    by (intros q Hq; now apply sorted_known_In in Hq).
  split; [exact Hs|]. split; [apply sort_sorted; reflexivity|].
  destruct qs as [|q0 qs'] eqn:E; cbn [hd_error or_default].
  - repeat split; try tauto; try (intros q []); congruence.
  - destruct (known_label q0 (Hk q0 (or_introl eq_refl))) as [Hne Hunk].
    assert (Ht : truthy (Some q0) = true)
      by (destruct q0; [congruence|reflexivity]).
    rewrite Ht. repeat split; try congruence.
    intros q [<-|Hq]; [lia|].
    inversion Hs as [|? ? _ Hall]; subst.
    rewrite Forall_forall in Hall. apply (Hall q Hq).
Qed.

(** An instance: the answer built from the sample video of source A. *)
Lemma summary_highest_quality_witness :
  match generateDownloadInfo fixed_host sample_answer "1234567890123" with
  | Some info =>
      hd_error (DownloadInfo.available_qualities info)
      = Some (DownloadInfo.highest_quality info) /\
      DownloadInfo.highest_quality info = "720p"
  | None => False
  end.
Proof.
  destruct (generateDownloadInfo fixed_host sample_answer "1234567890123")
    as [info|] eqn:E; [|vm_compute in E; discriminate E].
  destruct (summary_highest_quality _ _ _ _ E) as (_ & _ & _ & _ & Hh).
  vm_compute in E. injection E as <-.
  split; [apply Hh; discriminate|reflexivity].
Defined.

(** X19: the summary lists a quality exactly when it is the quality of
    some variant of some item and is neither empty nor "unknown", and a
    resolution likewise; neither list has a duplicate; the total number of
    variants is the sum over the items, and the two counts of files are
    the number of items. *)
Theorem summary_lists_all_labels
  (host : Host) (mediaData : Result.t) (tweetId : string)
  (info : DownloadInfo.t) :
  generateDownloadInfo host mediaData tweetId = Some info ->
  (forall q, In q (DownloadInfo.available_qualities info) <->
     known q = true /\
     exists item v, In item (Result.media mediaData) /\
                    In v (MediaItem.variants item) /\
                    Variant.quality v = q) /\
  (forall r, In r (DownloadInfo.available_resolutions info) <->
     known r = true /\
     exists item v, In item (Result.media mediaData) /\
                    In v (MediaItem.variants item) /\
                    Variant.resolution v = r) /\
  DownloadInfo.total_variants info
  = list_sum (map (fun item => List.length (MediaItem.variants item))
                  (Result.media mediaData)) /\
  DownloadInfo.media_count info = List.length (Result.media mediaData) /\
  DownloadInfo.total_files info = List.length (Result.media mediaData).
Proof.
  unfold generateDownloadInfo.
  destruct (date_iso host (Result.created_at mediaData)); [|discriminate].
  intros [= <-].
  cbn [DownloadInfo.available_qualities DownloadInfo.available_resolutions
       DownloadInfo.total_variants DownloadInfo.media_count
       DownloadInfo.total_files].
  assert (Hin : forall (A : Type) (f : Variant.t -> A) (x : A),
            In x (map f (flat_map MediaItem.variants
                                  (Result.media mediaData))) <->
            exists item v, In item (Result.media mediaData) /\
                           In v (MediaItem.variants item) /\ f v = x).
  { intros A f x. rewrite in_map_iff. split.
    - intros (v & <- & Hv). apply in_flat_map in Hv.
      destruct Hv as (item & Hi & Hv). now exists item, v.
    - intros (item & v & Hi & Hv & <-). exists v. split; [reflexivity|].
      apply in_flat_map. now exists item. }
  assert (Hlist : forall (cmp : string -> string -> Z)
                         (f : Variant.t -> string) (q : string),
            In q (sort cmp (new_Set (filter known
                    (map f (flat_map MediaItem.variants
                                     (Result.media mediaData)))))) <->
            known q = true /\
            exists item v, In item (Result.media mediaData) /\
                           In v (MediaItem.variants item) /\ f v = q).
  { intros cmp f q. split.
    - intros H. apply (proj1 (sorted_known_In _ _ _)) in H.
      destruct H as [Hk H]. split; [exact Hk|]. now apply Hin.
    - intros [Hk H]. apply sorted_known_In. split; [exact Hk|].
      now apply Hin. }
  split; [intros q; apply Hlist|]. split; [intros r; apply Hlist|].
  repeat split.
  - clear Hin Hlist.
    induction (Result.media mediaData) as [|item l IH]; [reflexivity|].
    cbn [flat_map map]. rewrite length_app, IH. reflexivity.
Qed.

(** An instance: the answer built from the sample video of source A. *)
Lemma summary_lists_all_labels_witness :
  match generateDownloadInfo fixed_host sample_answer "1234567890123" with
  | Some info =>
      In "360p" (DownloadInfo.available_qualities info) /\
      DownloadInfo.total_variants info = 2%nat
  | None => False
  end.
Proof.
  destruct (generateDownloadInfo fixed_host sample_answer "1234567890123")
    as [info|] eqn:E; [|vm_compute in E; discriminate E].
  destruct (summary_lists_all_labels _ _ _ _ E) as (Hq & _ & Ht & _).
  split.
  - apply Hq. split; [reflexivity|].
    exists (enhance sample_video_A),
           (Variant.make (Some "https://video.twimg.com/vid/640x360/a.mp4")
                         "360p" (Some 832000) (Some "video/mp4") "640x360").
    repeat split; vm_compute; auto.
  - rewrite Ht. reflexivity.
Defined.

End SummaryFacts.

(** ** The answers of the handler *)

Module ResponseFacts.
Import JS Twitter Spec.

Lemma generateDownloadInfo_summary
  (host : Host) (r : Result.t) (id : string) (info : DownloadInfo.t) :
  generateDownloadInfo host r id = Some info ->
  DownloadInfo.id info = id /\
  DownloadInfo.media_count info = List.length (Result.media r) /\
  DownloadInfo.total_files info = List.length (Result.media r).
Proof.
  unfold generateDownloadInfo.
  destruct (date_iso host (Result.created_at r)); [|discriminate].
  intros E. injection E as <-. repeat split.
Qed.

(** The three ways the handler ends once it has an identifier. *)
Lemma respond_cases (host : Host) (tweetUrl id : string)
  (a result : option Result.t) :
  respond host tweetUrl id a result = not_available id \/
  respond host tweetUrl id a result = service_error \/
  exists r2 iso info,
    respond host tweetUrl id a result
    = jsonResponse
        (Success tweetUrl id
           (or_default (Some (Result.method r2)) "standard")
           (Result.user r2) (Result.text r2) (TsText iso)
           (Result.media r2) (List.length (Result.media r2)) info)
        200 /\
    Result.created_at r2 = TsText iso /\
    Result.media r2 <> [] /\
    generateDownloadInfo host r2 id = Some info.
Proof.
  unfold respond.
  destruct result as [r|]; [|now left].
  destruct (has_media (Some r)) eqn:Hm; cbn [negb]; [|now left].
  match goal with
  | |- context [match ?x with Some _ => _ | None => service_error end] =>
      destruct x as [r2|] eqn:E2; [|now right; left]
  end.
  destruct (generateDownloadInfo host r2 id) as [info|] eqn:Ei;
    [|now right; left].
  right; right.
  assert (H2 : (exists iso, Result.created_at r2 = TsText iso) /\
               Result.media r2 <> []).
  { assert (Hr : Result.media r <> []).
    { cbn [has_media] in Hm. destruct (Result.media r); discriminate. }
    assert (He : forall l : list MediaItem.t,
               l <> [] -> enhanceMediaWithResolutions l id <> []).
    { intros [|x l] Hl; [congruence|discriminate]. }
    destruct a as [a|]; [destruct (has_media (Some a)) eqn:Ha|];
      cbn [Result.created_at with_method with_media] in E2;
      destruct (Result.created_at r) eqn:Ec;
      try destruct (iso_of_millis host _);
      try discriminate; injection E2 as <-;
      cbn [Result.media Result.created_at with_method with_media
           with_created_at];
      (split; [eauto|]); apply He; try exact Hr;
      cbn [has_media] in Ha; destruct (Result.media a); discriminate. }
  destruct H2 as [[iso Hiso] Hmedia].
  exists r2, iso, info. rewrite Hiso. repeat split; auto.
Qed.

Lemma respond_status (host : Host) (tweetUrl id : string)
  (a : option Result.t) (r : Result.t) :
  has_media (Some r) = true ->
  Response.status (respond host tweetUrl id a (Some r))
  = if renders host (Result.created_at r) then 200 else 500.
Proof.
  intros Hm. unfold respond. rewrite Hm. cbn [negb].
  assert (Hc : forall r1, Result.created_at r1 = Result.created_at r ->
             Response.status
               match
                 match Result.created_at r1 with
                 | TsNumber n =>
                     match iso_of_millis host (n * 1000) with
                     | Some iso => Some (with_created_at r1 (TsText iso))
                     | None => None
                     end
                 | TsText _ => Some r1
                 end
               with
               | Some r2 =>
                   match generateDownloadInfo host r2 id with
                   | Some info =>
                       jsonResponse
                         (Success tweetUrl id
                            (or_default (Some (Result.method r2)) "standard")
                            (Result.user r2) (Result.text r2)
                            (Result.created_at r2) (Result.media r2)
                            (List.length (Result.media r2)) info)
                         200
                   | None => service_error
                   end
               | None => service_error
               end
             = if renders host (Result.created_at r) then 200 else 500).
  { intros r1 E. rewrite <- E. unfold renders, generateDownloadInfo.
    destruct (Result.created_at r1) as [s|n] eqn:Ec.
    - rewrite Ec. now destruct (date_iso host (TsText s)).
    - destruct (iso_of_millis host (n * 1000)) as [iso|]; [|reflexivity].
      cbn [with_created_at Result.created_at].
      now destruct (date_iso host (TsText iso)). }
  destruct a as [a|]; [destruct (has_media (Some a))|]; apply Hc;
    reflexivity.
Qed.

Lemma handler_settles
  (host : Host) (net : network) (tweetUrl id : string) :
  extractStatusIdFromUrl tweetUrl = Some id ->
  fst (run net (handleScrapeRequestDirect host tweetUrl))
  = respond host tweetUrl id (net fetchViaSyndicationAPI id)
            (settled net id).
Proof.
  intros Hid. rewrite (HandlerFacts.handler_selection host net _ _ Hid).
  unfold settled, either.
  destruct (net fetchViaSyndicationAPI id) as [a|]; reflexivity.
Qed.

(** X20: whatever is posted and whatever the sources resolve to, the
    answer carries the JSON CORS headers, and it is a success with status
    200, or a failure whose status and message go together: 400 with
    "Invalid URL" or "Invalid request" and no identifier, 404 with
    "Content not available" and the identifier read from the posted
    address, or 500 with "Service error" and no identifier. *)
Theorem handler_answers (host : Host) (net : network) (body : posted) :
  let r := fst (run net (handleScrapeRequest host body)) in
  Response.headers r = corsHeaders (Some "application/json") /\
  match Response.json r with
  | Success _ _ _ _ _ _ _ _ _ => Response.status r = 200
  | Failure error id =>
      (Response.status r = 400 /\ id = None /\
       (error = "Invalid URL" \/ error = "Invalid request")) \/
      (Response.status r = 404 /\ error = "Content not available" /\
       exists url, body = Url url /\ extractStatusIdFromUrl url = id) \/
      (Response.status r = 500 /\ error = "Service error" /\ id = None)
  end.
Proof.
  destruct body as [| |url]; cbn [handleScrapeRequest].
  - cbn. split; [reflexivity|]. left. auto.
  - cbn. split; [reflexivity|]. right; right. auto.
  - destruct (extractStatusIdFromUrl url) as [id|] eqn:Hid.
    + cbv zeta. rewrite (handler_settles host net _ _ Hid).
      destruct (respond_cases host url id (net fetchViaSyndicationAPI id)
                              (settled net id))
        as [E|[E|(r2 & iso & info & E & _)]]; rewrite E.
      * split; [reflexivity|]. right; left.
        cbn. repeat split. exists url. auto.
      * split; [reflexivity|]. right; right. cbn. auto.
      * split; reflexivity.
    + unfold handleScrapeRequestDirect. rewrite Hid. cbn.
      split; [reflexivity|]. left. auto.
Qed.

(** X21: the handler issues no call for an address without identifier;
    otherwise it calls source A and then source B with the identifier,
    also when A already has media, and source C after them exactly when
    the result of A, or of B when A resolved to [null], has no media. *)
Theorem handler_calls (host : Host) (net : network) (tweetUrl : string) :
  snd (run net (handleScrapeRequestDirect host tweetUrl))
  = match extractStatusIdFromUrl tweetUrl with
    | None => []
    | Some id =>
        (fetchViaSyndicationAPI, id) :: (fetchViaFxtwitterAPI, id)
        :: (if has_media (either (net fetchViaSyndicationAPI id)
                                 (net fetchViaFxtwitterAPI id))
            then []
            else [(fetchViaHTMLScraping, id)])
    end.
Proof.
  destruct (extractStatusIdFromUrl tweetUrl) as [id|] eqn:Hid.
  - unfold handleScrapeRequestDirect. rewrite Hid.
    rewrite (HandlerFacts.status_id_truthy _ _ Hid). cbn [negb].
    rewrite !HandlerFacts.run_call. cbn [snd]. unfold either.
    destruct (net fetchViaSyndicationAPI id) as [a|].
    + destruct (has_media (Some a)); cbn [negb];
        [reflexivity|now rewrite HandlerFacts.run_call].
    + destruct (has_media (net fetchViaFxtwitterAPI id)); cbn [negb];
        [reflexivity|now rewrite HandlerFacts.run_call].
  - unfold handleScrapeRequestDirect. rewrite Hid. reflexivity.
Qed.

(** X22: a success answer echoes the posted address and the identifier
    read from it, names a method, carries its timestamp as text, has at
    least one media item and their count, and its download summary is the
    one generated for the identifier from the very user, text, timestamp
    and media of the answer. *)
Theorem success_body
  (host : Host) (net : network) (body : posted)
  (url id method : string) (user : User.t) (text : string)
  (created_at : timestamp) (media : list MediaItem.t) (media_count : nat)
  (info : DownloadInfo.t) :
  Response.json (fst (run net (handleScrapeRequest host body)))
  = Success url id method user text created_at media media_count info ->
  body = Url url /\
  extractStatusIdFromUrl url = Some id /\
  truthy (Some method) = true /\
  (exists iso, created_at = TsText iso) /\
  media <> [] /\
  media_count = List.length media /\
  (exists m, generateDownloadInfo host
               (Result.make m user text created_at media) id
             = Some info) /\
  DownloadInfo.id info = id /\
  DownloadInfo.media_count info = media_count /\
  DownloadInfo.total_files info = media_count.
Proof.
  destruct body as [| |u]; cbn [handleScrapeRequest];
    [discriminate|discriminate|].
  destruct (extractStatusIdFromUrl u) as [i|] eqn:Hid.
  - rewrite (handler_settles host net _ _ Hid).
    destruct (respond_cases host u i (net fetchViaSyndicationAPI i)
                            (settled net i))
      as [E|[E|(r2 & iso & info' & E & Hc & Hm & Hi)]]; rewrite E;
      [discriminate|discriminate|].
    cbn [jsonResponse Response.json]. intros H.
    injection H as <- <- <- <- <- <- <- <- <-.
    destruct (generateDownloadInfo_summary _ _ _ _ Hi) as (H1 & H2 & H3).
    repeat split; auto.
    + now destruct (Result.method r2).
    + now exists iso.
    + exists (Result.method r2). rewrite <- Hc.
      now destruct r2.
  - unfold handleScrapeRequestDirect. rewrite Hid. discriminate.
Qed.

(** An instance: source B alone has a photo. *)
Lemma success_body_witness :
  match Response.json
          (fst (run only_B (handleScrapeRequest fixed_host (Url sample_url))))
  with
  | Success url id _ _ _ _ media media_count info =>
      extractStatusIdFromUrl url = Some id /\
      media_count = List.length media /\
      DownloadInfo.media_count info = media_count
  | Failure _ _ => False
  end.
Proof.
  destruct (Response.json
              (fst (run only_B
                        (handleScrapeRequest fixed_host (Url sample_url)))))
    as [e i|u i m us t c md n info] eqn:E; [vm_compute in E; discriminate E|].
  destruct (success_body _ _ _ _ _ _ _ _ _ _ _ _ E)
    as (_ & H1 & _ & _ & _ & H2 & _ & _ & H3 & _).
  auto.
Defined.

(** X23: for an address with an identifier the status follows the
    result the handler settles on: 404 when it has no media; when it has,
    200 if the host's [Date] renders its timestamp, and 500 if it does
    not. *)
Theorem status_follows_media
  (host : Host) (net : network) (tweetUrl id : string) :
  extractStatusIdFromUrl tweetUrl = Some id ->
  (has_media (settled net id) = false ->
   Response.status (fst (run net (handleScrapeRequestDirect host tweetUrl)))
   = 404) /\
  (forall r : Result.t,
     settled net id = Some r ->
     has_media (Some r) = true ->
     Response.status
       (fst (run net (handleScrapeRequestDirect host tweetUrl)))
     = if renders host (Result.created_at r) then 200 else 500).
Proof.
  intros Hid. rewrite (handler_settles host net _ _ Hid). split.
  - intros Hm. unfold respond.
    destruct (settled net id) as [r|]; [|reflexivity].
    now rewrite Hm.
  - intros r -> Hm. now apply respond_status.
Qed.

(** An instance: on a host that rejects a number of milliseconds beyond
    8.64e15, a photo of source B dated 1766966400 seconds is answered
    with 200, and the same photo dated 9000000000000000 seconds with
    500. *)
Lemma status_follows_media_witness :
  Response.status
    (fst (run (only_B_at 1766966400)
              (handleScrapeRequestDirect strict_host sample_url)))
  = 200 /\
  Response.status
    (fst (run (only_B_at 9000000000000000)
              (handleScrapeRequestDirect strict_host sample_url)))
  = 500.
Proof.
  split.
  - destruct (settled (only_B_at 1766966400) "1234567890123")
      as [r|] eqn:E; [|discriminate E].
    rewrite (proj2 (status_follows_media strict_host (only_B_at 1766966400)
                      sample_url "1234567890123" eq_refl) r E);
      vm_compute in E; injection E as <-; reflexivity.
  - destruct (settled (only_B_at 9000000000000000) "1234567890123")
      as [r|] eqn:E; [|discriminate E].
    rewrite (proj2 (status_follows_media strict_host
                      (only_B_at 9000000000000000)
                      sample_url "1234567890123" eq_refl) r E);
      vm_compute in E; injection E as <-; reflexivity.
Defined.

Lemma syndication_failed (host : Host) (replies : list (reply SynData.t)) :
  Forall failed replies -> syndication_outcome host replies = None.
Proof.
  induction 1 as [|r l Hr _ IH]; [reflexivity|].
  destruct r; cbn [syndication_outcome]; [reflexivity|exact IH|].
  destruct Hr.
Qed.

(** X24: when every request to the three upstream services fails, by an
    exception or a response that is not ok, the handler has called all
    three sources and answers 404 with the identifier, on any host. *)
Theorem upstream_failures_unavailable
  (host : Host) (u : Upstream) (tweetUrl id : string) :
  extractStatusIdFromUrl tweetUrl = Some id ->
  Forall failed (syndication_replies u id) ->
  failed (fxtwitter_reply u id) ->
  failed (page_reply u id) ->
  run (network_of host u) (handleScrapeRequest host (Url tweetUrl))
  = (jsonResponse (Failure "Content not available" (Some id)) 404,
     [(fetchViaSyndicationAPI, id); (fetchViaFxtwitterAPI, id);
      (fetchViaHTMLScraping, id)]).
Proof.
  intros Hid Ha Hb Hc. cbn [handleScrapeRequest].
  unfold handleScrapeRequestDirect. rewrite Hid.
  rewrite (HandlerFacts.status_id_truthy _ _ Hid). cbn [negb].
  rewrite !HandlerFacts.run_call. cbn [network_of].
  rewrite (syndication_failed host _ Ha).
  assert (Eb : fxtwitter_outcome host (fxtwitter_reply u id) = None).
  { destruct (fxtwitter_reply u id); [reflexivity|reflexivity|destruct Hb]. }
  assert (Ec : scraping_outcome host (page_reply u id) = None).
  { destruct (page_reply u id); [reflexivity|reflexivity|destruct Hc]. }
  rewrite Eb. cbn [has_media negb].
  rewrite HandlerFacts.run_call. cbn [network_of]. rewrite Ec.
  reflexivity.
Qed.

Lemma upstream_failures_unavailable_witness :
  fst (run (network_of fixed_host failing_upstream)
           (handleScrapeRequest fixed_host (Url sample_url)))
  = jsonResponse (Failure "Content not available" (Some "1234567890123"))
                 404.
Proof.
  rewrite (upstream_failures_unavailable fixed_host failing_upstream
             sample_url "1234567890123").
  - reflexivity.
  - reflexivity.
  - cbn. repeat constructor.
  - exact I.
  - exact I.
Defined.

End ResponseFacts.

(** ** The names and dates of the download summary *)

Module NamingFacts.
Import JS Twitter Spec.







Lemma or_default_truthy (s d : string) :
  truthy (Some d) = true -> truthy (Some (or_default (Some s) d)) = true.
Proof. intros H. destruct s; [exact H|reflexivity]. Qed.











End NamingFacts.

(** ** The identifier read from an address *)

Module IdentifierFacts.
Import JS Twitter Spec.

Lemma take_digits_maximal (s d rest : string) :
  take_digits s = (d, rest) -> ~ starts_with_digit rest.
Proof.
  revert d rest. induction s as [|c s IH]; intros d rest; simpl.
  - intros E. injection E as <- <-. intros (x & r & Hx & _). discriminate.
  - destruct (is_digit c) eqn:Hc.
    + destruct (take_digits s) as [d' rest'] eqn:E'.
      intros E. injection E as <- <-. now apply (IH d').
    + intros E. injection E as <- <-.
      intros (x & r & Hx & Hd). injection Hx as <- <-. congruence.
Qed.

Lemma match_status_id_sound (s d : string) :
  match_status_id s = Some d ->
  exists after,
    s = d ++ after /\ (10 <= String.length d)%nat /\
    all_digits d = true /\ ~ starts_with_digit after.
Proof.
  unfold match_status_id.
  destruct (take_digits s) as [d' rest] eqn:E.
  destruct (10 <=? String.length d')%nat eqn:Hl; [|discriminate].
  intros H. injection H as <-.
  destruct (HandlerFacts.take_digits_split _ _ _ E) as [Hs Hd].
  exists rest. repeat split; auto.
  - now apply Nat.leb_le.
  - exact (take_digits_maximal _ _ _ E).
Qed.

Lemma match_status_id_run (run after : string) :
  all_digits run = true -> (10 <= String.length run)%nat ->
  match_status_id (run ++ after) <> None.
Proof.
  intros Hd Hl. unfold match_status_id.
  pose proof (HandlerFacts.take_digits_run run after Hd) as Hlen.
  destruct (take_digits (run ++ after)) as [d rest].
  cbn [fst] in Hlen.
  destruct (10 <=? String.length d)%nat eqn:E; [discriminate|].
  apply Nat.leb_gt in E. lia.
Qed.

Lemma empty_append (a b : string) :
  EmptyString = a ++ b -> a = EmptyString /\ b = EmptyString.
Proof. destruct a; [simpl; auto|discriminate]. Qed.

(** X27: the identifier is the first maximal run of at least ten decimal
    digits of the address: the text before it holds no run of ten digits
    and does not end in a digit, and the text after it does not start
    with one. *)
Theorem status_id_is_first_run (s d : string) :
  extractStatusIdFromUrl s = Some d ->
  exists before after,
    s = before ++ d ++ after /\
    (10 <= String.length d)%nat /\ all_digits d = true /\
    ~ has_digit_run before /\ ~ ends_in_digit before /\
    ~ starts_with_digit after.
Proof.
  induction s as [|c s IH];
    rewrite HandlerFacts.extractStatusIdFromUrl_unfold.
  - vm_compute. discriminate.
  - destruct (match_status_id (String c s)) as [d'|] eqn:Em.
    + intros H. injection H as <-.
      destruct (match_status_id_sound _ _ Em) as (after & Hs & Hl & Hd & Ha).
      exists EmptyString, after. repeat split; auto.
      * intros (b & run & a & Hb & Hrl & _).
        apply empty_append in Hb. destruct Hb as [_ Hb].
        symmetry in Hb.
        apply empty_append in Hb. destruct Hb as [-> _].
        simpl in Hrl. lia.
      * intros (p & x & Hp & _). destruct p; discriminate.
    + intros H. destruct (IH H) as (before & after & Hs & Hl & Hd & Hn & He & Ha).
      exists (String c before), after. subst s.
      repeat split; auto.
      * intros (b & run & a & Hb & Hrl & Hrd).
        destruct b as [|x b].
        -- cbn [append] in Hb.
           apply (match_status_id_run run (a ++ d ++ after) Hrd Hrl).
           rewrite <- Em. f_equal.
           rewrite <- LabelFacts.append_assoc, <- Hb. reflexivity.
        -- cbn [append] in Hb. injection Hb as <- Hb.
           apply Hn. now exists b, run, a.
      * intros (p & x & Hp & Hx).
        destruct p as [|y p].
        -- cbn [append] in Hp. injection Hp as -> ->.
           apply (match_status_id_run (String x d) after).
           ++ cbn [all_digits]. now rewrite Hx, Hd.
           ++ cbn [String.length]. lia.
           ++ exact Em.
        -- cbn [append] in Hp. injection Hp as <- Hp.
           apply He. now exists p, x.
Qed.

Lemma status_id_is_first_run_witness :
  exists before after,
    sample_url = before ++ "1234567890123" ++ after /\
    ~ has_digit_run before /\ ~ starts_with_digit after.
Proof.
  destruct (status_id_is_first_run sample_url "1234567890123" eq_refl)
    as (before & after & Hs & _ & _ & Hn & _ & Ha).
  now exists before, after.
Defined.

End IdentifierFacts.
